(** * walrus: back-port compiler for assignment expressions

    A shallow embedding of the conversion core of [walrus.py]
    ([Context], [guess_tabsize], [guess_linesep], [parse], [convert]) and
    the properties of its natural-language specification.

    Conventions of the embedding.
    - Python [str] is [string]; every character stands for one code point
      in the range U+0000..U+00FF.
    - Python [int] is [Z].
    - A raised exception is the [Raise] case of [result].
    - [uuid.uuid4().hex] is an external generator: the [k]-th draw of the
      process is [uuid4_hex k], and the number of draws made so far is
      threaded through every function that may draw ([M]).
    - The process environment ([os.environ], [os.linesep]) is a parameter,
      once as it is at the call ([os]) and once as it was when the module
      was loaded ([loaded]), which is when the module constants are read.
    - The parser ([parso.parse]) is a parameter; it returns a tree,
      raises a syntax error or raises something else. *)

From Stdlib Require Import ZArith Strings.String Strings.Ascii List Lia Bool.
From Stdlib Require Import Sorting.Sorted Sorting.Permutation Numbers.DecimalString.
From Stdlib Require Import Numbers.DecimalPos.
Import ListNotations.

Open Scope string_scope.

(* ================================================================== *)
(** * Python builtins used by the source *)

Module Py.

(** Exceptions the modelled code can raise. [Unsupported] is not a Python
    exception: it marks a [%]-conversion outside the modelled fragment. *)
Inductive exn : Type :=
| AttributeError
| IndexError
| ValueError
| NotImplementedError
| KeyError (key : string)
| EnvironError (msg : string)
| ConvertError (msg : string)
| Unsupported.

Inductive result (A : Type) : Type :=
| Ok (a : A)
| Raise (e : exn).
Arguments Ok {A} a.
Arguments Raise {A} e.

Definition rbind {A B} (r : result A) (f : A -> result B) : result B :=
  match r with
  | Ok a => f a
  | Raise e => Raise e
  end.

Definition rmap {A B} (f : A -> B) (r : result A) : result B :=
  rbind r (fun a => Ok (f a)).

(** Characters that have no escape in a Rocq string literal. *)
Definition TAB : ascii := "009"%char.
Definition LF_char : ascii := "010"%char.
Definition CR_char : ascii := "013"%char.
Definition DQUOTE : ascii := "034"%char.
Definition SQUOTE : ascii := "039"%char.
Definition BACKSLASH : ascii := "092"%char.

Definition CR : string := String CR_char "".
Definition LF : string := String LF_char "".
Definition CRLF : string := String CR_char (String LF_char "").

Definition chr (c : ascii) : string := String c "".

(** [str(n)] for an [int]. *)
Definition str_int (z : Z) : string := NilEmpty.string_of_int (Z.to_int z).

(** ['\t'.expandtabs(n)]: the tab sits at column 0, so it expands to [n]
    spaces, and to nothing when [n <= 0]. *)
Fixpoint spaces (n : nat) : string :=
  match n with
  | O => ""
  | S m => String " " (spaces m)
  end.

Definition expandtabs_tab (tabsize : Z) : string := spaces (Z.to_nat tabsize).

(** [s.endswith(suffix)]. *)
Fixpoint endswith (s suffix : string) : bool :=
  (s =? suffix) ||
  match s with
  | "" => false
  | String _ r => endswith r suffix
  end.

(** [str.upper] on the ASCII letters. Code points above U+007F are kept:
    the source only compares the result with ['CR'], ['CRLF'] and ['LF'],
    and no code point outside [a-z] has an upper-case expansion that is a
    piece of one of these three words, so the comparisons are unchanged. *)
Definition upper_char (c : ascii) : ascii :=
  let n := nat_of_ascii c in
  if ((97 <=? n) && (n <=? 122))%nat then ascii_of_nat (n - 32) else c.

Fixpoint upper (s : string) : string :=
  match s with
  | "" => ""
  | String c r => String (upper_char c) (upper r)
  end.

(** Line boundaries of [str.splitlines] below U+0100: LF, VT, FF, CR
    (also as CR LF), FS, GS, RS and NEL. *)
Definition is_linebreak (c : ascii) : bool :=
  let n := nat_of_ascii c in
  ((n =? 10) || (n =? 11) || (n =? 12) || (n =? 13) ||
   (n =? 28) || (n =? 29) || (n =? 30) || (n =? 133))%nat.

(** [s.splitlines(True)]: [cur] is the line read so far. *)
Fixpoint splitlines_from (cur s : string) : list string :=
  match s with
  | "" => if (cur =? "") then [] else [cur]
  | String c r =>
      if Ascii.eqb c CR_char then
        match r with
        | String c' r' =>
            if Ascii.eqb c' LF_char
            then (cur ++ CRLF) :: splitlines_from "" r'
            else (cur ++ CR) :: splitlines_from "" r
        | "" => (cur ++ CR) :: splitlines_from "" r
        end
      else if is_linebreak c then (cur ++ chr c) :: splitlines_from "" r
      else splitlines_from (cur ++ chr c) r
  end.

Definition splitlines_keepends (s : string) : list string :=
  splitlines_from "" s.

(** [repr(s)] for a [str] (CPython's [unicode_repr] below U+0100). *)
Fixpoint contains_char (c : ascii) (s : string) : bool :=
  match s with
  | "" => false
  | String d r => Ascii.eqb c d || contains_char c r
  end.

Definition hex_digit (n : nat) : ascii :=
  if (n <? 10)%nat then ascii_of_nat (48 + n) else ascii_of_nat (87 + n).

Definition hex_escape (n : nat) : string :=
  String BACKSLASH (String "x" (String (hex_digit (n / 16))
                                  (String (hex_digit (n mod 16)) ""))).

Definition is_printable (n : nat) : bool :=
  (((32 <=? n) && (n <? 127)) || ((161 <=? n) && negb (n =? 173)))%nat.

Definition repr_char (quote c : ascii) : string :=
  let n := nat_of_ascii c in
  if Ascii.eqb c quote || Ascii.eqb c BACKSLASH then String BACKSLASH (chr c)
  else if Ascii.eqb c TAB then String BACKSLASH "t"
  else if Ascii.eqb c LF_char then String BACKSLASH "n"
  else if Ascii.eqb c CR_char then String BACKSLASH "r"
  else if is_printable n then chr c
  else hex_escape n.

Fixpoint repr_body (quote : ascii) (s : string) : string :=
  match s with
  | "" => ""
  | String c r => repr_char quote c ++ repr_body quote r
  end.

Definition repr (s : string) : string :=
  let quote :=
    if contains_char SQUOTE s && negb (contains_char DQUOTE s)
    then DQUOTE else SQUOTE in
  String quote (repr_body quote s ++ chr quote).

(** [int(s)] in base 10: surrounding white space, an optional sign, and
    digits that single underscores may separate.

    The white space [int] skips is not the white space of [str.strip]:
    a code point below U+007F is skipped when it is one of the six of C's
    [isspace] (U+0009..U+000D and the space), so U+001C..U+001F are
    kept and make the conversion fail; from U+0080 on, a code point that
    Unicode calls white space (U+0085 and U+00A0 in the modelled range)
    is read as a space. *)
Definition is_space (c : ascii) : bool :=
  let n := nat_of_ascii c in
  (((9 <=? n) && (n <=? 13)) || (n =? 32) || (n =? 133) || (n =? 160))%nat.

(** The white space [int] skips in front, and at both ends. *)
Fixpoint skip_left (s : string) : string :=
  match s with
  | "" => ""
  | String c r => if is_space c then skip_left r else s
  end.

Fixpoint reverse (acc s : string) : string :=
  match s with
  | "" => acc
  | String c r => reverse (String c acc) r
  end.

Definition skip_space (s : string) : string :=
  reverse "" (skip_left (reverse "" (skip_left s))).

Fixpoint int_digits (acc : Z) (after_digit : bool) (s : string) : result Z :=
  match s with
  | "" => if after_digit then Ok acc else Raise ValueError
  | String c r =>
      let n := nat_of_ascii c in
      if ((48 <=? n) && (n <=? 57))%nat
      then int_digits (10 * acc + Z.of_nat (n - 48)) true r
      else if Ascii.eqb c "_" && after_digit then int_digits acc false r
      else Raise ValueError
  end.

Definition int (s : string) : result Z :=
  match skip_space s with
  | String "+" r => int_digits 0 false r
  | String "-" r => rmap Z.opp (int_digits 0 false r)
  | t => int_digits 0 false t
  end.

(** ** The [%] operator with a mapping on the right

    The modelled fragment is what the two templates of the source use:
    [%(key)s], [%(key)r] and [%%]. The key is looked up as soon as its
    closing parenthesis is read, before the conversion character. *)
Inductive value : Type :=
| VStr (s : string)
| VInt (z : Z).

Definition str (v : value) : string :=
  match v with
  | VStr s => s
  | VInt z => str_int z
  end.

Definition repr_value (v : value) : string :=
  match v with
  | VStr s => repr s
  | VInt z => str_int z
  end.

Definition dict : Type := list (string * value).

Fixpoint dict_get (d : dict) (key : string) : option value :=
  match d with
  | [] => None
  | (k, v) :: rest => if k =? key then Some v else dict_get rest key
  end.

Inductive fstate : Type :=
| Text
| Percent
| Key (depth : nat) (key : string)
| Conv (v : value).

Fixpoint format_from (st : fstate) (s : string) (d : dict) : result string :=
  match s with
  | "" =>
      match st with
      | Text => Ok ""
      | _ => Raise ValueError
      end
  | String c r =>
      match st with
      | Text =>
          if Ascii.eqb c "%" then format_from Percent r d
          else rmap (String c) (format_from Text r d)
      | Percent =>
          if Ascii.eqb c "(" then format_from (Key 0 "") r d
          else if Ascii.eqb c "%" then rmap (String "%") (format_from Text r d)
          else Raise Unsupported
      | Key depth key =>
          if Ascii.eqb c ")" then
            match depth with
            | O =>
                match dict_get d key with
                | Some v => format_from (Conv v) r d
                | None => Raise (KeyError key)
                end
            | S depth' => format_from (Key depth' (key ++ chr c)) r d
            end
          else if Ascii.eqb c "(" then format_from (Key (S depth) (key ++ chr c)) r d
          else format_from (Key depth (key ++ chr c)) r d
      | Conv v =>
          if Ascii.eqb c "s" then rmap (append (str v)) (format_from Text r d)
          else if Ascii.eqb c "r" then rmap (append (repr_value v)) (format_from Text r d)
          else Raise Unsupported
      end
  end.

(** [template % d]. *)
Definition format (template : string) (d : dict) : result string :=
  format_from Text template d.

(** [sorted(xs, key=key)] for string keys: a stable insertion sort, which
    is what any stable sort returns. *)
Section Sorted.
Context {A : Type} (key : A -> string).

Fixpoint insert_sorted (x : A) (l : list A) : list A :=
  match l with
  | [] => [x]
  | y :: l' =>
      if String.leb (key x) (key y) then x :: l
      else y :: insert_sorted x l'
  end.

Fixpoint sorted (l : list A) : list A :=
  match l with
  | [] => []
  | x :: l' => insert_sorted x (sorted l')
  end.
End Sorted.

(** [sorted(set(xs))] for strings: the elements of a set are distinct, so
    the order in which the set yields them does not show in the result. *)
Definition sorted_set (xs : list string) : list string :=
  sorted (fun s => s) (nodup string_dec xs).

End Py.
Import Py.

(* ================================================================== *)
(** * The syntax tree provider (parso) *)

Module Parso.

#[local] Set Warnings "-register-all".

(** A tree node: a leaf with its type tag, its text, the white space and
    comments before it, and its column; an interior node with its type tag
    and children; or the module at the root (type tag [file_input]). *)
Inductive node : Type :=
| Leaf (type value prefix : string) (column : nat)
| PythonNode (type : string) (children : list node)
| Module (children : list node).

(** [node.type]. *)
Definition type_of (n : node) : string :=
  match n with
  | Leaf t _ _ _ => t
  | PythonNode t _ => t
  | Module _ => "file_input"
  end.

(** [node.children], an [AttributeError] on a leaf. *)
Definition children_of (n : node) : result (list node) :=
  match n with
  | Leaf _ _ _ _ => Raise AttributeError
  | PythonNode _ cs => Ok cs
  | Module cs => Ok cs
  end.

(** [node.get_code()]: the exact source text of the subtree. *)
Fixpoint get_code (n : node) : string :=
  match n with
  | Leaf _ value prefix _ => prefix ++ value
  | PythonNode _ cs => String.concat "" (map get_code cs)
  | Module cs => String.concat "" (map get_code cs)
  end.

(** [node.get_first_leaf()]. *)
Fixpoint get_first_leaf (n : node) : result node :=
  match n with
  | Leaf _ _ _ _ => Ok n
  | PythonNode _ cs | Module cs =>
      match cs with
      | [] => Raise IndexError
      | c :: _ => get_first_leaf c
      end
  end.

(** [leaf.column], an [AttributeError] on an interior node. *)
Definition column_of (n : node) : result Z :=
  match n with
  | Leaf _ _ _ column => Ok (Z.of_nat column)
  | _ => Raise AttributeError
  end.

(** [leaf.value], an [AttributeError] on an interior node. *)
Definition value_of (n : node) : result string :=
  match n with
  | Leaf _ value _ _ => Ok value
  | _ => Raise AttributeError
  end.

(** What [parso.ParserSyntaxError] carries. *)
Record ParserSyntaxError : Type := {
  message : string;
  token_type : string;
  token_value : string
}.

(** What a call of [parso.parse] comes to: the children of the module, a
    [ParserSyntaxError], or another exception, such as the [ValueError]
    for a version it cannot read and the [NotImplementedError] for a
    version it has no grammar for. *)
Inductive parsed : Type :=
| Tree (children : list node)
| SyntaxError (error : ParserSyntaxError)
| OtherError (e : exn).

End Parso.
Import Parso.

(* ================================================================== *)
(** * The process environment *)

Record OS : Type := {
  environ : list (string * string);
  linesep : string
}.

Fixpoint environ_get (env : list (string * string)) (key : string) : option string :=
  match env with
  | [] => None
  | (k, v) :: rest => if k =? key then Some v else environ_get rest key
  end.

(** [os.getenv(key, default)]. *)
Definition getenv (os : OS) (key default : string) : string :=
  match environ_get (environ os) key with
  | Some v => v
  | None => default
  end.

(* ================================================================== *)
(** * walrus.py *)

(** Code that may draw unique ids: the number of draws made so far goes in
    and comes out. *)
Definition M (A : Type) : Type := nat -> result (A * nat).

Definition ret {A} (a : A) : M A := fun k => Ok (a, k).

Definition bind {A B} (m : M A) (f : A -> M B) : M B :=
  fun k =>
    match m k with
    | Ok (a, k') => f a k'
    | Raise e => Raise e
    end.

Definition raise {A} (e : exn) : M A := fun _ => Raise e.

Definition lift {A} (r : result A) : M A :=
  fun k => rbind r (fun a => Ok (a, k)).

Declare Scope walrus_scope.
Delimit Scope walrus_scope with walrus.
Notation "x <- m ;; f" := (bind m (fun x => f))
  (at level 61, m at next level, right associativity) : walrus_scope.
Open Scope walrus_scope.

(** [FUNC_TEMPLATE]: the lines of the wrapper template. The template text
    starts with a line break, so the first line is empty. *)
Definition TRIPLE_QUOTE : string :=
  String DQUOTE (String DQUOTE (String DQUOTE "")).

Definition FUNC_TEMPLATE : list string := Eval cbv in [
  "";
  "def __walrus_wrapper_%(name)s_%(uuid)s():";
  "%(tabsize)s" ++ TRIPLE_QUOTE
     ++ "Wrapper function for assignment expression `%(expr)s`."
     ++ TRIPLE_QUOTE;
  "%(tabsize)s%(keyword)s %(name)s";
  "%(tabsize)s%(name)s = %(expr)s";
  "%(tabsize)sreturn %(name)s"
].

(** The template of a declaration line in [_concat]. *)
Definition VARS_TEMPLATE : string :=
  "%(indent)s%(name)s = locales().get(%(name)r)%(linesep)s".

(** An entry of [Context._func]: [dict(name=..., expr=..., uuid=...)]. *)
Record WrapperSpec : Type := {
  name : string;
  expr : string;
  uuid : string
}.

(** The attributes of a [Context] object. *)
Record Context : Type := {
  _column : Z;
  _tabsize : Z;
  _linesep : string;
  _indent : Z;
  _insert : bool;
  _prefix : string;
  _suffix : string;
  _buffer : string;
  _vars : list string;
  _func : list WrapperSpec
}.

(** [Context.string]. *)
Definition string_of (self : Context) : string := _buffer self.

Definition set_prefix (self : Context) (s : string) : Context :=
  {| _column := _column self; _tabsize := _tabsize self;
     _linesep := _linesep self; _indent := _indent self;
     _insert := _insert self; _prefix := s; _suffix := _suffix self;
     _buffer := _buffer self; _vars := _vars self; _func := _func self |}.

Definition set_suffix (self : Context) (s : string) : Context :=
  {| _column := _column self; _tabsize := _tabsize self;
     _linesep := _linesep self; _indent := _indent self;
     _insert := _insert self; _prefix := _prefix self; _suffix := s;
     _buffer := _buffer self; _vars := _vars self; _func := _func self |}.

Definition set_buffer (self : Context) (s : string) : Context :=
  {| _column := _column self; _tabsize := _tabsize self;
     _linesep := _linesep self; _indent := _indent self;
     _insert := _insert self; _prefix := _prefix self;
     _suffix := _suffix self; _buffer := s;
     _vars := _vars self; _func := _func self |}.

(** [self._vars.append(v); self._func.append(f)]. *)
Definition record_spec (self : Context) (v : string) (f : WrapperSpec) : Context :=
  {| _column := _column self; _tabsize := _tabsize self;
     _linesep := _linesep self; _indent := _indent self;
     _insert := _insert self; _prefix := _prefix self;
     _suffix := _suffix self; _buffer := _buffer self;
     _vars := _vars self ++ [v]; _func := _func self ++ [f] |}.

(** The attributes set by [__init__] before the traversal. *)
Definition fresh (column tabsize : Z) (linesep : string) : Context :=
  {| _column := column; _tabsize := tabsize; _linesep := linesep;
     _indent := column; _insert := true;
     _prefix := ""; _suffix := ""; _buffer := "";
     _vars := []; _func := [] |}.

(** [if self._insert: self._prefix += code else: self._suffix += code]. *)
Definition emit (self : Context) (code : string) : Context :=
  if _insert self then set_prefix self (_prefix self ++ code)
  else set_suffix self (_suffix self ++ code).

(** The replacement written at an occurrence:
    ['__walrus_wrapper_%s_%s()' % (name, nuid)]. *)
Definition wrapper_call (name nuid : string) : string :=
  "__walrus_wrapper_" ++ name ++ "_" ++ nuid ++ "()".

(** The body of the first loop of [_concat]: one declaration. *)
Definition add_declaration (indent : string) (self : Context) (var : string)
  : result Context :=
  rbind (format VARS_TEMPLATE
           [("indent", VStr indent); ("name", VStr var);
            ("linesep", VStr (_linesep self))]) (fun line =>
  Ok (set_buffer self (_buffer self ++ line))).

(** The body of the second loop of [_concat]: one helper definition. *)
Definition add_wrapper (indent keyword : string) (self : Context)
    (func : WrapperSpec) : result Context :=
  rbind (format (String.concat (_linesep self ++ indent) FUNC_TEMPLATE)
           [("keyword", VStr keyword); ("tabsize", VInt (_tabsize self));
            ("name", VStr (name func)); ("expr", VStr (expr func));
            ("uuid", VStr (uuid func))]) (fun text =>
  Ok (set_buffer self (_buffer self ++ (text ++ _linesep self)))).

(** A [for] loop whose body may raise. *)
Definition for_each {A} (xs : list A) (body : Context -> A -> result Context)
    (self : Context) : result Context :=
  fold_left (fun acc x => rbind acc (fun self => body self x)) xs (Ok self).

(** [Context._concat]. *)
Definition _concat (self : Context) : result Context :=
  (* first, the prefix codes *)
  let self := set_buffer self (_buffer self ++ _prefix self) in
  (* then, the variables and functions *)
  let indent := expandtabs_tab (_column self) in
  rbind (for_each (sorted_set (_vars self)) (add_declaration indent) self)
    (fun self =>
  let keyword := if (_column self >? 0)%Z then "nonlocal" else "global" in
  rbind (for_each (sorted name (_func self)) (add_wrapper indent keyword) self)
    (fun self =>
  (* finally, the suffix codes *)
  Ok (set_buffer self (_buffer self ++ _suffix self)))).

(** The counters [pool] of [guess_linesep]: a dict whose keys keep the
    order in which they were written, CR, CR LF, LF. The three keys are
    always there, so a lookup never fails. *)
Definition pool_get (pool : list (string * Z)) (k : string) : Z :=
  match find (fun kv => fst kv =? k) pool with
  | Some kv => snd kv
  | None => 0
  end.

Definition pool_incr (pool : list (string * Z)) (k : string) : list (string * Z) :=
  map (fun kv => if fst kv =? k then (fst kv, (snd kv + 1)%Z) else kv) pool.

(** The loop of [guess_linesep] over [code.splitlines(True)]. *)
Definition count_lineseps (code : string) : list (string * Z) :=
  fold_left
    (fun pool line =>
       if endswith line CR then pool_incr pool CR
       else if endswith line CRLF then pool_incr pool CRLF
       else pool_incr pool LF)
    (splitlines_keepends code)
    [(CR, 0%Z); (CRLF, 0%Z); (LF, 0%Z)].

(** [sorted(xs, key=key)] for integer keys: stable, smallest key first. *)
Definition sorted_Z {A} (key : A -> Z) : list A -> list A :=
  fix sort (l : list A) : list A :=
    match l with
    | [] => []
    | x :: l' =>
        (fix ins (l : list A) : list A :=
           match l with
           | [] => [x]
           | y :: r => if (key x <=? key y)%Z then x :: l else y :: ins r
           end) (sort l')
    end.

Section Walrus.

(** [uuid.uuid4().hex] at each draw. *)
Variable uuid4_hex : nat -> string.
(** [os.environ] and [os.linesep] at the time of the call. *)
Variable os : OS.
(** The process environment at the time the module was loaded. *)
Variable loaded : OS.
(** [parso.parse(text, error_recovery=..., version=...)]. *)
Variable parso_parse : string -> bool -> string -> parsed.
(** The grammar versions from 3.8 on that parso ships, in order. *)
Variable WALRUS_VERSION : list string.

(** [__walrus_tabsize__]: a module constant, read from the environment
    once, when the module is loaded; a later change of [WALRUS_TABSIZE]
    does not reach it. *)
Definition __walrus_tabsize__ : string := getenv loaded "WALRUS_TABSIZE" "4".

(** [Context.guess_linesep]. [root] is [node.get_root_node()]: the
    embedding has no parent links, so the caller passes the root. *)
Definition guess_linesep (root : node) : result string :=
  let code := get_code root in
  let pool := count_lineseps code in
  let sort := sorted_Z (fun k => pool_get pool k) (map fst pool) in
  let first := nth 0 sort "" in
  let second := nth 1 sort "" in
  if (pool_get pool first >? pool_get pool second)%Z then Ok first
  else
    let env := getenv os "POSEUR_LINESEP" (linesep os) in
    let env_name := upper env in
    if env_name =? "CR" then Ok CR
    else if env_name =? "CRLF" then Ok CRLF
    else if env_name =? "LF" then Ok LF
    else if existsb (String.eqb env) [CR; CRLF; LF] then Ok env
    else Raise (EnvironError ("invlid line separator " ++ repr env)).

(** [Context.guess_tabsize]. *)
Fixpoint guess_tabsize (nd : node) : result Z :=
  match nd with
  | Leaf _ _ _ _ => Raise AttributeError
  | PythonNode _ children | Module children =>
      (fix each (cs : list node) : result Z :=
         match cs with
         | [] => int (getenv os "WALRUS_TABSIZE" __walrus_tabsize__)
         | child :: rest =>
             if negb (type_of child =? "suite") then
               match child with
               | Leaf _ _ _ _ => each rest
               | _ => guess_tabsize child
               end
             else
               rbind (children_of child) (fun ccs =>
               match nth_error ccs 1 with
               | None => Raise IndexError
               | Some stmt =>
                   rbind (get_first_leaf stmt) column_of
               end)
         end) children
  end.

(** [Context._process_module]: the body is the docstring only. *)
Definition _process_module (nd : node) (self : Context) : M Context :=
  ret self.

(** [Context._process_funcdef]: the body is the docstring only. *)
Definition _process_funcdef (nd : node) (self : Context) : M Context :=
  ret self.

(** [Context._process_classdef]: the body is the docstring only. *)
Definition _process_classdef (nd : node) (self : Context) : M Context :=
  ret self.

(** [Context.__init__] once [tabsize] and [linesep] are known, for the
    traversal [process]. *)
Definition Context_with (process : node -> Context -> M Context)
    (nd : node) (column tabsize : Z) (linesep : string) : M Context :=
  self <- process nd (fresh column tabsize linesep) ;;
  lift (_concat self).

(** [Context._process_namedexpr_test], for the traversal [process] of the
    nested [Context]. *)
Definition _process_namedexpr_test_with (process : node -> Context -> M Context)
    (nd : node) (self : Context) : M Context :=
  (* split assignment expression *)
  match nd with
  | Leaf _ _ _ _ => raise AttributeError
  | PythonNode _ [node_name; _; node_expr]
  | Module [node_name; _; node_expr] =>
      name <- lift (value_of node_name) ;;
      fun k =>
        let nuid := uuid4_hex k in
        ((* calculate expression string *)
         inner <- Context_with process node_expr
                    (_indent self) (_tabsize self) (_linesep self) ;;
         let expr := string_of inner in
         (* replacing codes *)
         let self := emit self (wrapper_call name nuid) in
         (* keep records *)
         ret (record_spec self name
                {| name := name; expr := expr; uuid := nuid |})) (S k)
  | _ => raise ValueError
  end.

(** [Context._process]. The handler of a child is looked up by name,
    ['_process_%s' % child.type], with [_process] as the default. *)
Fixpoint _process (nd : node) (self : Context) {struct nd} : M Context :=
  match nd with
  | Module _ => _process_module nd self
  | PythonNode _ children =>
      (fix each (cs : list node) (self : Context) : M Context :=
         match cs with
         | [] => ret self
         | child :: rest =>
             self <- (if type_of child =? "module" then
                        _process_module child self
                      else if type_of child =? "namedexpr_test" then
                        _process_namedexpr_test_with _process child self
                      else if type_of child =? "funcdef" then
                        _process_funcdef child self
                      else if type_of child =? "classdef" then
                        _process_classdef child self
                      else _process child self) ;;
             each rest self
         end) children self
  | Leaf _ _ _ _ => ret (emit self (get_code nd))
  end.

(** [Context._process_namedexpr_test]. *)
Definition _process_namedexpr_test : node -> Context -> M Context :=
  _process_namedexpr_test_with _process.

(** [Context(node, column, tabsize, linesep)]: [__init__], which ends
    with the traversal and [_concat]. *)
Definition Context_init (root nd : node) (column : Z)
    (tabsize : option Z) (linesep : option string) : M Context :=
  tabsize <- lift (match tabsize with
                   | None => guess_tabsize nd
                   | Some t => Ok t
                   end) ;;
  linesep <- lift (match linesep with
                   | None => guess_linesep root
                   | Some l => Ok l
                   end) ;;
  Context_with _process nd column tabsize linesep.

(** [parse]. [WALRUS_VERSION[-1]] is evaluated before [os.getenv]. Only
    [ParserSyntaxError] is caught; any other exception of the parser
    goes on to the caller. *)
Definition parse (text source : string) (error_recovery : bool) : result node :=
  match rev WALRUS_VERSION with
  | [] => Raise IndexError
  | latest :: _ =>
      match parso_parse text error_recovery
              (getenv os "WALRUS_VERSION" latest) with
      | Tree children => Ok (Module children)
      | SyntaxError error =>
          Raise (ConvertError
                   (message error ++ ": <" ++ token_type error ++ ": "
                    ++ repr (token_value error) ++ "> from " ++ source))
      | OtherError e => Raise e
      end
  end.

(** [convert]. *)
Definition convert (text source : string) : M string :=
  (* parse source string *)
  module <- lift (parse text source false) ;;
  (* convert source string *)
  self <- Context_init module module 0 None None ;;
  (* return converted string *)
  ret (string_of self).

End Walrus.

(* ================================================================== *)
(** * Sample inputs *)

Module Sample.

(** An environment without any of the variables, on a POSIX system. *)
Definition posix : OS := {| environ := []; linesep := LF |}.

(** The same with a tab configured as line separator. *)
Definition posix_tab : OS :=
  {| environ := [("POSEUR_LINESEP", chr TAB)]; linesep := LF |}.

(** A generator of 32 hexadecimal digits: the draws of one run differ. *)
Fixpoint hex_fixed (width : nat) (n : N) : string :=
  match width with
  | O => ""
  | S w => hex_fixed w (n / 16)%N ++ chr (hex_digit (N.to_nat (n mod 16)%N))
  end.

Definition uuid4_hex (k : nat) : string :=
  hex_fixed 32 (3735928559 + 7 * N.of_nat k)%N.

Definition name_ (v : string) (prefix : string) (column : nat) : node :=
  Leaf "name" v prefix column.
Definition op_ (v : string) (prefix : string) (column : nat) : node :=
  Leaf "operator" v prefix column.
Definition num_ (v : string) (prefix : string) (column : nat) : node :=
  Leaf "number" v prefix column.

(** [a = 1], one line. *)
Definition assign_text : string := "a = 1" ++ LF.
Definition assign_tree : list node :=
  [PythonNode "simple_stmt"
     [PythonNode "expr_stmt" [name_ "a" "" 0; op_ "=" " " 2; num_ "1" " " 4];
      Leaf "newline" LF "" 5];
   Leaf "endmarker" "" "" 0].

(** [(x := f())], one line. *)
Definition single_atom : node :=
  PythonNode "atom"
    [op_ "(" "" 0;
     PythonNode "namedexpr_test"
       [name_ "x" "" 1; op_ ":=" " " 3;
        PythonNode "atom_expr"
          [name_ "f" " " 6;
           PythonNode "trailer" [op_ "(" "" 7; op_ ")" "" 8]]];
     op_ ")" "" 9].
Definition single_text : string := "(x := f())" ++ LF.
Definition single_tree : list node :=
  [PythonNode "simple_stmt" [single_atom; Leaf "newline" LF "" 10];
   Leaf "endmarker" "" "" 0].

(** [(a := 1) + (a := 2)]. *)
Definition twice_expr : node :=
  PythonNode "arith_expr"
    [PythonNode "atom"
       [op_ "(" "" 0;
        PythonNode "namedexpr_test"
          [name_ "a" "" 1; op_ ":=" " " 3; num_ "1" " " 6];
        op_ ")" "" 7];
     op_ "+" " " 9;
     PythonNode "atom"
       [op_ "(" " " 11;
        PythonNode "namedexpr_test"
          [name_ "a" "" 12; op_ ":=" " " 14; num_ "2" " " 17];
        op_ ")" "" 18]].

(** [(y := (x := 1) + 1)]: the expression of the occurrence for [y], the
    occurrence, and the atom around it. *)
Definition nested_expr : node :=
  PythonNode "arith_expr"
    [PythonNode "atom"
       [op_ "(" " " 6;
        PythonNode "namedexpr_test"
          [name_ "x" "" 7; op_ ":=" " " 9; num_ "1" " " 12];
        op_ ")" "" 13];
     op_ "+" " " 15;
     num_ "1" " " 17].
Definition nested_occurrence : node :=
  PythonNode "namedexpr_test" [name_ "y" "" 1; op_ ":=" " " 3; nested_expr].
Definition nested_atom : node :=
  PythonNode "atom" [op_ "(" "" 0; nested_occurrence; op_ ")" "" 18].

(** Two lines that end in CR LF. *)
Definition crlf_text : string := "a = 1" ++ CRLF ++ "b = 2" ++ CRLF.
Definition crlf_tree : list node :=
  [PythonNode "simple_stmt"
     [PythonNode "expr_stmt" [name_ "a" "" 0; op_ "=" " " 2; num_ "1" " " 4];
      Leaf "newline" CRLF "" 5];
   PythonNode "simple_stmt"
     [PythonNode "expr_stmt" [name_ "b" "" 0; op_ "=" " " 2; num_ "2" " " 4];
      Leaf "newline" CRLF "" 5];
   Leaf "endmarker" "" "" 0].

(** A parser that knows the sample texts and two grammars. *)
Definition parso_parse (text : string) (error_recovery : bool) (version : string)
  : parsed :=
  if negb (existsb (String.eqb version) ["3.8"; "3.9"]) then
    OtherError NotImplementedError
  else if text =? assign_text then Tree assign_tree
  else if text =? single_text then Tree single_tree
  else if text =? crlf_text then Tree crlf_tree
  else SyntaxError {| message := "invalid syntax";
                      token_type := "PythonTokenTypes.ERRORTOKEN";
                      token_value := text |}.

Definition WALRUS_VERSION : list string := ["3.8"; "3.9"].

(** The [Context] of [(a := 1) + (a := 2)] at column 0, tab size 4. *)
Definition twice_context : Context := Eval vm_compute in
  match Context_init uuid4_hex posix posix twice_expr twice_expr 0 (Some 4%Z) (Some LF) 0 with
  | Ok (self, _) => self
  | Raise _ => fresh 0 4 LF
  end.

(** The [Context] of [(x := f())] at column 8, tab size 4: after the
    traversal, and after [_concat]. *)
Definition single_traversed : Context := Eval vm_compute in
  match _process uuid4_hex single_atom (fresh 8 4 LF) 0 with
  | Ok (self, _) => self
  | Raise _ => fresh 8 4 LF
  end.

Definition single_context : Context := Eval vm_compute in
  match _concat single_traversed with
  | Ok self => self
  | Raise _ => single_traversed
  end.


End Sample.

(* ================================================================== *)
(** * Definitions used to state the properties *)

(** The concatenation of the pieces added to a buffer. *)
Definition flatten (l : list string) : string := fold_right append "" l.

(** [a] occurs in [s]. *)
Definition infix_of (a s : string) : Prop :=
  exists before after, s = before ++ a ++ after.


(** The keyword of a helper for a [Context] at [column]. *)
Definition scope_keyword (column : Z) : string :=
  if (column >? 0)%Z then "nonlocal" else "global".

(** A declaration line as the specification words it: the indent, the
    name, the lookup of the name, the line separator. *)
Definition declaration (indent linesep var : string) : string :=
  indent ++ var ++ " = locales().get(" ++ repr var ++ ")" ++ linesep.

(** The lines of a helper definition once the template is filled in;
    [lead] is what the template puts in front of a body line. *)
Definition wrapper_lines (keyword lead : string) (v : WrapperSpec) : list string :=
  [ "";
    "def __walrus_wrapper_" ++ name v ++ "_" ++ uuid v ++ "():";
    lead ++ TRIPLE_QUOTE ++ "Wrapper function for assignment expression `"
         ++ expr v ++ "`." ++ TRIPLE_QUOTE;
    lead ++ keyword ++ " " ++ name v;
    lead ++ name v ++ " = " ++ expr v;
    lead ++ "return " ++ name v ].

(** The text [_concat] adds for one helper. *)
Definition wrapper_text (self : Context) (v : WrapperSpec) : string :=
  String.concat (_linesep self ++ expandtabs_tab (_column self))
    (wrapper_lines (scope_keyword (_column self)) (str_int (_tabsize self)) v)
  ++ _linesep self.

(** The bucket with the strictly highest count, as the specification words
    line-separator inference; [None] when the highest count is shared. *)
Definition majority (code : string) : option string :=
  let pool := count_lineseps code in
  let keys := map fst pool in
  find (fun k =>
          forallb (fun k' => (k' =? k) || (pool_get pool k' <? pool_get pool k)%Z)
                  keys)
       keys.

(** The value the environment gives for the line separator. *)
Definition configured_linesep (os : OS) : string :=
  getenv os "POSEUR_LINESEP" (linesep os).

(** A string a template can hold anywhere: no conversion starts in it. *)
Definition percent_free (s : string) : Prop := contains_char "%" s = false.

(** What [guess_linesep] answers from the environment. *)
Definition linesep_from_environ (os : OS) : result string :=
  let env := configured_linesep os in
  let env_name := upper env in
  if env_name =? "CR" then Ok CR
  else if env_name =? "CRLF" then Ok CRLF
  else if env_name =? "LF" then Ok LF
  else if existsb (String.eqb env) [CR; CRLF; LF] then Ok env
  else Raise (EnvironError ("invlid line separator " ++ repr env)).

(** The number of assignment expressions in a tree. *)
Fixpoint occurrences (n : node) : nat :=
  match n with
  | Leaf _ _ _ _ => 0
  | PythonNode t cs =>
      (if t =? "namedexpr_test" then 1 else 0) + list_sum (map occurrences cs)
  | Module cs => list_sum (map occurrences cs)
  end.

(** The order [sorted] sorts by. *)
Definition key_le {A : Type} (key : A -> string) (a b : A) : Prop :=
  String.leb (key a) (key b) = true.


(** The handler [_process] picks for a child. *)
Definition handler (uuid4_hex : nat -> string) (child : node) (self : Context)
  : M Context :=
  if type_of child =? "module" then _process_module child self
  else if type_of child =? "namedexpr_test" then
    _process_namedexpr_test uuid4_hex child self
  else if type_of child =? "funcdef" then _process_funcdef child self
  else if type_of child =? "classdef" then _process_classdef child self
  else _process uuid4_hex child self.

(** The loop of [_process] over the children. *)
Fixpoint _process_children (uuid4_hex : nat -> string) (cs : list node)
    (self : Context) : M Context :=
  match cs with
  | [] => ret self
  | child :: rest =>
      self <- handler uuid4_hex child self ;;
      _process_children uuid4_hex rest self
  end.





(** The nodes of a tree: the tree itself and the nodes of its children. *)
Fixpoint subtrees (nd : node) : list node :=
  match nd with
  | Leaf _ _ _ _ => [nd]
  | PythonNode _ children | Module children => nd :: flat_map subtrees children
  end.

(** [z] is the column at which the block [suite] starts: the column of the
    first leaf of its second child, the first being the line break. *)
Definition block_column (suite : node) (z : Z) : Prop :=
  type_of suite = "suite" /\
  exists stmts stmt leaf,
    children_of suite = Ok stmts /\
    nth_error stmts 1 = Some stmt /\
    get_first_leaf stmt = Ok leaf /\
    column_of leaf = Ok z.





(** Induction on a tree with the property at hand for every child. *)
Fixpoint node_children_ind (P : node -> Prop)
    (HLeaf : forall t v p c, P (Leaf t v p c))
    (HNode : forall t cs, Forall P cs -> P (PythonNode t cs))
    (HModule : forall cs, Forall P cs -> P (Module cs))
    (n : node) {struct n} : P n :=
  match n with
  | Leaf t v p c => HLeaf t v p c
  | PythonNode t cs =>
      HNode t cs
        ((fix all (l : list node) : Forall P l :=
            match l with
            | [] => Forall_nil P
            | c :: r =>
                Forall_cons c (node_children_ind P HLeaf HNode HModule c) (all r)
            end) cs)
  | Module cs =>
      HModule cs
        ((fix all (l : list node) : Forall P l :=
            match l with
            | [] => Forall_nil P
            | c :: r =>
                Forall_cons c (node_children_ind P HLeaf HNode HModule c) (all r)
            end) cs)
  end.

(* ================================================================== *)
(** * walrus.py: the macros and the driver *)

(** [str.casefold] on the ASCII letters. Below U+0100 every other code
    point folds to itself, to a code point above U+007F or, for U+00DF, to
    [ss]; the source only looks the result up in [BOOLEAN_STATES], whose
    keys are ASCII and hold no [ss], so the lookups are unchanged. *)
Definition casefold_char (c : ascii) : ascii :=
  let n := nat_of_ascii c in
  if ((65 <=? n) && (n <=? 90))%nat then ascii_of_nat (n + 32) else c.

Fixpoint casefold (s : string) : string :=
  match s with
  | "" => ""
  | String c r => String (casefold_char c) (casefold r)
  end.

(** [BOOLEAN_STATES]. *)
Definition BOOLEAN_STATES : list (string * bool) :=
  [("1", true); ("0", false); ("yes", true); ("no", false);
   ("true", true); ("false", false); ("on", true); ("off", false)].

(** [d.get(key, default)]. *)
Fixpoint states_get (d : list (string * bool)) (key : string) (default : bool)
  : bool :=
  match d with
  | [] => default
  | (k, v) :: rest => if k =? key then v else states_get rest key default
  end.

(** [grammar_regex.match(name)] for [grammar(\d)(\d)\.txt]: the two digits
    when [name] starts with [grammar], two digits and [.txt]. *)
Definition is_digit (c : ascii) : bool :=
  let n := nat_of_ascii c in ((48 <=? n) && (n <=? 57))%nat.

Fixpoint drop (n : nat) (s : string) : string :=
  match n, s with
  | S m, String _ r => drop m r
  | _, _ => s
  end.

Definition grammar_match (name : string) : option (ascii * ascii) :=
  if prefix "grammar" name then
    match drop 7 name with
    | String major (String minor rest) =>
        if is_digit major && is_digit minor && prefix ".txt" rest
        then Some (major, minor) else None
    | _ => None
    end
  else None.

(** ['%s.%s' % grammar_regex.match(name).groups()], an [AttributeError]
    when the name does not match. *)
Definition version_of (name : string) : result string :=
  match grammar_match name with
  | Some (major, minor) => Ok (chr major ++ "." ++ chr minor)
  | None => Raise AttributeError
  end.

(** [map] with a function that may raise. *)
Fixpoint map_result {A B} (f : A -> result B) (l : list A) : result (list B) :=
  match l with
  | [] => Ok []
  | x :: r => rbind (f x) (fun y => rmap (cons y) (map_result f r))
  end.

(** The macro [WALRUS_VERSION], from the base names of the grammar files
    that [glob] finds in parso. *)
Definition WALRUS_VERSION_of (names : list string) : result (list string) :=
  rmap (fun versions =>
          sorted (fun v => v)
            (filter (fun version => String.leb "3.8" version) versions))
       (map_result version_of names).

(** [s.rfind(c)] for a character [c]: the index of its last occurrence,
    or -1. [i] is the index of the head of [s], [found] the answer so
    far. *)
Fixpoint rfind_from (i : Z) (c : ascii) (s : string) (found : Z) : Z :=
  match s with
  | "" => found
  | String d r => rfind_from (i + 1) c r (if Ascii.eqb d c then i else found)
  end.

Definition rfind (c : ascii) (s : string) : Z := rfind_from 0 c s (-1).

(** [s[:n]]; [s[n:]] is [drop n s]. *)
Fixpoint take (n : nat) (s : string) : string :=
  match n, s with
  | S m, String c r => String c (take m r)
  | _, _ => ""
  end.

(** The loop of [os.path.splitext] that skips the leading dots of the
    file name: whether the next [count] characters are all dots. *)
Fixpoint only_dots (count : nat) (s : string) : bool :=
  match count, s with
  | S n, String c r => if Ascii.eqb c "." then only_dots n r else false
  | _, _ => true
  end.

(** [os.path.splitext] on a POSIX system. *)
Definition splitext (p : string) : string * string :=
  let sepIndex := rfind "/" p in
  let dotIndex := rfind "." p in
  if (dotIndex >? sepIndex)%Z then
    (* skip all leading dots *)
    let filenameIndex := (sepIndex + 1)%Z in
    if only_dots (Z.to_nat (dotIndex - filenameIndex))
                 (drop (Z.to_nat filenameIndex) p)
    then (p, "")
    else (take (Z.to_nat dotIndex) p, drop (Z.to_nat dotIndex) p)
  else (p, "").

(** [os.path.join(a, b)] on a POSIX system. *)
Definition join (a b : string) : string :=
  if prefix "/" b then b
  else if (a =? "") || endswith a "/" then a ++ b
  else a ++ "/" ++ b.

(** [rename]. [uuid4_str k] is [str(uuid.uuid4())] at the [k]-th draw. *)
Definition rename (uuid4_str : nat -> string) (path root : string) : M string :=
  fun k =>
    let (stem, ext) := splitext path in
    let name := stem ++ "-" ++ uuid4_str k ++ ext in
    Ok (join root name, S k).

(** [os.environ[key] = value]: the new entry is the one a lookup finds. *)
Definition setenv (os : OS) (key value : string) : OS :=
  {| environ := (key, value) :: environ os; linesep := linesep os |}.

(** The namespace [parser.parse_args] returns. *)
Module Args.
Record t : Type := {
  quiet : bool;
  archive : bool;
  archive_path : string;
  encoding : string;
  python : string;
  linesep : string;
  linting : bool;
  tabsize : Z;
  file : list string
}.
End Args.

(** [main], from the set-up of the variables to the check of the line
    separator: the environment it leaves, and whether it raised. *)
Definition main_environ (args : Args.t) (os : OS) : OS * result unit :=
  (* set up variables *)
  let os := setenv os "WALRUS_VERSION" (Args.python args) in
  let os := setenv os "WALRUS_ENCODING" (Args.encoding args) in
  let os := setenv os "WALRUS_TABSIZE" (str_int (Args.tabsize args)) in
  let WALRUS_QUIET := environ_get (environ os) "WALRUS_QUIET" in
  let os := setenv os "WALRUS_QUIET"
              (if Args.quiet args then "1"
               else match WALRUS_QUIET with None => "0" | Some v => v end) in
  let WALRUS_LINTING := environ_get (environ os) "WALRUS_LINTING" in
  let os := setenv os "WALRUS_LINTING"
              (if Args.linting args then "1"
               else match WALRUS_LINTING with None => "0" | Some v => v end) in
  let linesep := upper (Args.linesep args) in
  if linesep =? "CR" then (setenv os "POSEUR_LINESEP" CR, Ok tt)
  else if linesep =? "CRLF" then (setenv os "POSEUR_LINESEP" CRLF, Ok tt)
  else if linesep =? "LF" then (setenv os "POSEUR_LINESEP" LF, Ok tt)
  else if existsb (String.eqb (Args.linesep args)) [CR; CRLF; LF]
  then (setenv os "POSEUR_LINESEP" (Args.linesep args), Ok tt)
  else (os, Raise (EnvironError ("invalid line separator "
                                 ++ repr (Args.linesep args)))).

(** The files and the standard output. A file is its text: the embedding
    takes every file to be readable and writable in the configured
    encoding, so that opening fails only for a missing file. *)
Record World : Type := {
  files : list (string * string);
  stdout : list string
}.

Inductive io_exn : Type :=
| FileNotFoundError (filename : string)
| Raised (e : exn).

Fixpoint read_file (fs : list (string * string)) (filename : string)
  : option string :=
  match fs with
  | [] => None
  | (f, text) :: rest => if f =? filename then Some text else read_file rest filename
  end.

(** [open(filename, 'w')] and [file.write(text)]: the file is created or
    replaced. *)
Fixpoint write_file (fs : list (string * string)) (filename text : string)
  : list (string * string) :=
  match fs with
  | [] => [(filename, text)]
  | (f, old) :: rest =>
      if f =? filename then (f, text) :: rest
      else (f, old) :: write_file rest filename text
  end.

Definition print (w : World) (line : string) : World :=
  {| files := files w; stdout := (stdout w ++ [line])%list |}.

Section Driver.

Variable uuid4_hex : nat -> string.
Variable os : OS.
Variable loaded : OS.
Variable parso_parse : string -> bool -> string -> parsed.
Variable WALRUS_VERSION : list string.

(** [walrus]: the world it leaves, and the number of ids drawn or the
    exception. *)
Definition walrus (filename : string) (w : World) (k : nat)
  : World * (io_exn + nat) :=
  let WALRUS_QUIET :=
    states_get BOOLEAN_STATES (casefold (getenv os "WALRUS_QUIET" "0")) false in
  let w := if negb WALRUS_QUIET
           then print w ("Now converting " ++ repr filename ++ "...")
           else w in
  (* file content *)
  match read_file (files w) filename with
  | None => (w, inl (FileNotFoundError filename))
  | Some text =>
      (* do the dirty things *)
      match convert uuid4_hex os loaded parso_parse WALRUS_VERSION text filename k with
      | Raise e => (w, inl (Raised e))
      | Ok (text, k') =>
          (* dump back to the file *)
          ({| files := write_file (files w) filename text; stdout := stdout w |},
           inr k')
      end
  end.

End Driver.

(* ================================================================== *)
(** * Definitions used to state further properties *)

(** The type tags that have a handler of their own in [Context]. *)
Definition has_handler (type : string) : bool :=
  (type =? "module") || (type =? "namedexpr_test")
  || (type =? "funcdef") || (type =? "classdef").


(** A tree the traversal has no special handler for at any depth: no
    module in it, and no child with one of the four type tags. *)
Fixpoint plain (nd : node) : bool :=
  match nd with
  | Leaf _ _ _ _ => true
  | PythonNode _ cs =>
      forallb (fun c => negb (has_handler (type_of c)) && plain c) cs
  | Module _ => false
  end.

(** Children the traversal writes out as they are. *)
Definition plain_children (cs : list node) : bool :=
  forallb (fun c => negb (has_handler (type_of c)) && plain c) cs.

(** A leaf that [guess_tabsize] steps over. *)
Definition stepped_over (nd : node) : bool :=
  match nd with
  | Leaf type _ _ _ => negb (type =? "suite")
  | _ => false
  end.

(** An interior node that [guess_tabsize] descends into. *)
Definition descended_into (nd : node) : bool :=
  match nd with
  | Leaf _ _ _ _ => false
  | _ => negb (type_of nd =? "suite")
  end.

(** A string without any of the white space [int] skips. *)
Fixpoint no_space (s : string) : bool :=
  match s with
  | "" => true
  | String c r => negb (is_space c) && no_space r
  end.

(** One of the three line separators. *)
Definition recognised (sep : string) : Prop := In sep [CR; CRLF; LF].

(** The value of a version [major.minor] of one digit each. *)
Definition version_number (major minor : ascii) : nat :=
  10 * (nat_of_ascii major - 48) + (nat_of_ascii minor - 48).

(** The ten digits. *)
Definition digits : list ascii := map ascii_of_nat (seq 48 10).

(** The values of [WALRUS_QUIET] that make [walrus] silent. *)
Definition quiet_values : list string := ["1"; "yes"; "true"; "on"].

(* ================================================================== *)
(** * Further sample inputs *)

Module Cases.

(** [x := 1] as the root of a [Context]: its three children are leaves. *)
Definition bare_occurrence : node :=
  PythonNode "namedexpr_test"
    [Sample.name_ "x" "" 0; Sample.op_ ":=" " " 2; Sample.num_ "1" " " 5].

(** [def f(): return (x := 1)], one line, as a child. *)
Definition function : node :=
  PythonNode "funcdef"
    [Leaf "keyword" "def" "" 0; Sample.name_ "f" " " 4;
     PythonNode "parameters" [Sample.op_ "(" "" 5; Sample.op_ ")" "" 6];
     Sample.op_ ":" "" 7;
     PythonNode "simple_stmt"
       [PythonNode "return_stmt"
          [Leaf "keyword" "return" " " 9;
           PythonNode "atom"
             [Sample.op_ "(" " " 16; bare_occurrence; Sample.op_ ")" "" 23]];
        Leaf "newline" LF "" 24]].

(** The end of a module. *)
Definition endmarker : node := Leaf "endmarker" "" "" 0.


(** A module without any function or class: [(x := f())] in the block of
    an [if] statement, indented by 8 columns. *)
Definition block_atom : node :=
  PythonNode "atom"
    [Sample.op_ "(" (spaces 8) 8;
     PythonNode "namedexpr_test"
       [Sample.name_ "x" "" 9; Sample.op_ ":=" " " 11;
        PythonNode "atom_expr"
          [Sample.name_ "f" " " 14;
           PythonNode "trailer" [Sample.op_ "(" "" 15; Sample.op_ ")" "" 16]]];
     Sample.op_ ")" "" 17].
Definition block : node :=
  Module
    [PythonNode "if_stmt"
       [Leaf "keyword" "if" "" 0; Sample.name_ "c" " " 3; Sample.op_ ":" "" 4;
        PythonNode "suite"
          [Leaf "newline" LF "" 5;
           PythonNode "simple_stmt" [block_atom; Leaf "newline" LF "" 18]]];
     endmarker].

(** The arguments of [walrus --tabsize 8 --linesep crlf file.py]. *)
Definition args : Args.t :=
  {| Args.quiet := false; Args.archive := true; Args.archive_path := "archive";
     Args.encoding := "UTF-8"; Args.python := "3.8"; Args.linesep := "crlf";
     Args.linting := true; Args.tabsize := 8; Args.file := ["file.py"] |}.

(** Grammar files of a parso installation. *)
Definition grammars : list string :=
  ["grammar39.txt"; "grammar27.txt"; "grammar38.txt"; "grammar36.txt"].

End Cases.

(* ================================================================== *)
(** * Strings and results *)

Lemma rmap_append_empty {e : result string} : rmap (append "") e = e.
Proof. destruct e; reflexivity. Qed.

Lemma append_assoc (a b c : string) : (a ++ b) ++ c = a ++ (b ++ c).
Proof. induction a as [|x a IH]; simpl; [reflexivity | now rewrite IH]. Qed.

Lemma append_empty_r (a : string) : a ++ "" = a.
Proof. induction a as [|x a IH]; simpl; [reflexivity | now rewrite IH]. Qed.


Lemma infix_of_refl (a : string) : infix_of a a.
Proof. exists "", "". simpl. now rewrite append_empty_r. Qed.

Lemma infix_of_app_l (a s t : string) : infix_of a s -> infix_of a (s ++ t).
Proof.
  intros (u & w & ->). exists u, (w ++ t). now rewrite !append_assoc.
Qed.

Lemma infix_of_app_r (a s t : string) : infix_of a t -> infix_of a (s ++ t).
Proof.
  intros (u & w & ->). exists (s ++ u), w. now rewrite !append_assoc.
Qed.

Lemma infix_of_flatten (a : string) (l : list string) :
  In a l -> infix_of a (flatten l).
Proof.
  induction l as [|x l IH]; simpl; [tauto|].
  intros [->|Hin].
  - apply infix_of_app_l, infix_of_refl.
  - apply infix_of_app_r, (IH Hin).
Qed.

(* ================================================================== *)
(** * The [%] operator *)

Lemma percent_free_app (a b : string) :
  percent_free a -> percent_free b -> percent_free (a ++ b).
Proof.
  unfold percent_free.
  induction a as [|x a IH]; cbn [contains_char append]; intros Ha Hb; [exact Hb|].
  apply orb_false_iff in Ha as [Hx Ha]. rewrite Hx. cbn [orb]. auto.
Qed.

Lemma percent_free_spaces (n : nat) : percent_free (spaces n).
Proof. unfold percent_free. induction n; cbn; auto. Qed.

Lemma format_percent_free (s : string) (d : dict) :
  percent_free s -> format s d = Ok s.
Proof.
  unfold percent_free, format.
  induction s as [|c s IH]; cbn [contains_char format_from]; intros H; [reflexivity|].
  apply orb_false_iff in H as [Hc Hs].
  rewrite Ascii.eqb_sym, Hc. now rewrite (IH Hs).
Qed.

(** Formatting distributes over a concatenation whose first part is a
    complete template. *)
Lemma format_from_app (s t : string) (d : dict) :
  forall st r,
    format_from st s d = Ok r ->
    format_from st (s ++ t) d = rmap (append r) (format_from Text t d).
Proof.
  induction s as [|c s IH]; intros st r H.
  - destruct st; cbn [format_from] in H; try discriminate.
    injection H as <-. cbn [append]. now rewrite rmap_append_empty.
  - cbn [format_from append] in H |- *. destruct st.
    + destruct (Ascii.eqb c "%"); [now apply IH|].
      destruct (format_from Text s d) as [r'|] eqn:E; [|discriminate].
      injection H as <-. rewrite (IH _ _ E).
      destruct (format_from Text t d); reflexivity.
    + destruct (Ascii.eqb c "("); [now apply IH|].
      destruct (Ascii.eqb c "%"); [|discriminate].
      destruct (format_from Text s d) as [r'|] eqn:E; [|discriminate].
      injection H as <-. rewrite (IH _ _ E).
      destruct (format_from Text t d); reflexivity.
    + destruct (Ascii.eqb c ")").
      * destruct depth; [|now apply IH].
        destruct (dict_get d key); [now apply IH | discriminate].
      * destruct (Ascii.eqb c "("); now apply IH.
    + destruct (Ascii.eqb c "s").
      * destruct (format_from Text s d) as [r'|] eqn:E; [|discriminate].
        injection H as <-. rewrite (IH _ _ E).
        destruct (format_from Text t d); simpl; [|reflexivity].
        now rewrite append_assoc.
      * destruct (Ascii.eqb c "r"); [|discriminate].
        destruct (format_from Text s d) as [r'|] eqn:E; [|discriminate].
        injection H as <-. rewrite (IH _ _ E).
        destruct (format_from Text t d); simpl; [|reflexivity].
        now rewrite append_assoc.
Qed.

Lemma format_app (s t r q : string) (d : dict) :
  format s d = Ok r -> format t d = Ok q -> format (s ++ t) d = Ok (r ++ q).
Proof.
  unfold format. intros Hs Ht. rewrite (format_from_app _ _ _ _ _ Hs), Ht.
  reflexivity.
Qed.

(** Joined template lines are formatted line by line. *)
Lemma format_join (sep : string) (d : dict) (lines rendered : list string) :
  percent_free sep ->
  Forall2 (fun l r => format l d = Ok r) lines rendered ->
  format (String.concat sep lines) d = Ok (String.concat sep rendered).
Proof.
  intros Hsep H. induction H as [|l r ls rs Hl Hrest IH]; [reflexivity|].
  destruct Hrest as [|l' r' ls rs Hl' Hrest].
  - exact Hl.
  - change (format (l ++ sep ++ String.concat sep (l' :: ls)) d
            = Ok (r ++ sep ++ String.concat sep (r' :: rs))).
    apply format_app; [exact Hl|].
    apply format_app; [now apply format_percent_free | exact IH].
Qed.

(** The declaration template yields the declaration line. *)
Lemma format_VARS_TEMPLATE (indent var linesep : string) :
  format VARS_TEMPLATE
    [("indent", VStr indent); ("name", VStr var); ("linesep", VStr linesep)]
  = Ok (declaration indent linesep var).
Proof. unfold declaration. cbn. now rewrite append_empty_r. Qed.

(** The wrapper template yields the lines of the helper. *)
Lemma format_FUNC_TEMPLATE (sep keyword : string) (tabsize : Z) (v : WrapperSpec) :
  percent_free sep ->
  format (String.concat sep FUNC_TEMPLATE)
    [("keyword", VStr keyword); ("tabsize", VInt tabsize);
     ("name", VStr (name v)); ("expr", VStr (expr v)); ("uuid", VStr (uuid v))]
  = Ok (String.concat sep (wrapper_lines keyword (str_int tabsize) v)).
Proof.
  intros Hsep. apply format_join; [exact Hsep|].
  unfold FUNC_TEMPLATE, wrapper_lines.
  repeat (constructor; [cbn -[str_int]; rewrite ?append_empty_r; reflexivity|]).
  constructor.
Qed.

(* ================================================================== *)
(** * Assembly: [_concat] *)

Lemma for_each_raise {A} (xs : list A) (body : Context -> A -> result Context) e :
  fold_left (fun acc x => rbind acc (fun self => body self x)) xs (Raise e)
  = Raise e.
Proof. induction xs as [|x xs IH]; simpl; auto. Qed.

(** A loop whose body appends [h x] to the buffer appends them all. *)
Lemma for_each_appends {A} (body : Context -> A -> result Context)
    (h : A -> string) (base : Context) (xs : list A) :
  (forall x s, In x xs ->
     body (set_buffer base s) x = Ok (set_buffer base (s ++ h x))) ->
  forall s,
    for_each xs body (set_buffer base s)
    = Ok (set_buffer base (s ++ flatten (map h xs))).
Proof.
  unfold for_each. induction xs as [|x xs IH]; intros Hbody s.
  - simpl. now rewrite append_empty_r.
  - simpl. rewrite (Hbody x s (or_introl eq_refl)).
    rewrite IH by (intros; apply Hbody; now right).
    now rewrite append_assoc.
Qed.

(** A loop whose body only appends to the buffer only appends to it. *)
Lemma for_each_shape {A} (body : Context -> A -> result Context)
    (base : Context) (xs : list A) :
  (forall x s r, body (set_buffer base s) x = Ok r ->
     exists t, r = set_buffer base (s ++ t)) ->
  forall s r,
    for_each xs body (set_buffer base s) = Ok r ->
    exists t, r = set_buffer base (s ++ t).
Proof.
  unfold for_each. induction xs as [|x xs IH]; intros Hbody s r H.
  - simpl in H. injection H as <-. exists "". now rewrite append_empty_r.
  - simpl in H. destruct (body (set_buffer base s) x) as [r1|e] eqn:E.
    + destruct (Hbody _ _ _ E) as (t & ->).
      destruct (IH Hbody _ _ H) as (t' & ->).
      exists (t ++ t'). now rewrite append_assoc.
    + rewrite for_each_raise in H. discriminate.
Qed.

Lemma add_declaration_appends (indent : string) (base : Context) (s var : string) :
  add_declaration indent (set_buffer base s) var
  = Ok (set_buffer base (s ++ declaration indent (_linesep base) var)).
Proof.
  unfold add_declaration. cbn [_linesep set_buffer].
  now rewrite format_VARS_TEMPLATE.
Qed.

Lemma add_wrapper_shape (indent keyword : string) (base : Context) (s : string)
    (v : WrapperSpec) (r : Context) :
  add_wrapper indent keyword (set_buffer base s) v = Ok r ->
  exists t, r = set_buffer base (s ++ t).
Proof.
  unfold add_wrapper. destruct (format _ _) as [text|]; simpl; [|discriminate].
  intros H. injection H as <-. now eexists.
Qed.

Lemma add_wrapper_appends (base : Context) (s : string) (v : WrapperSpec) :
  percent_free (_linesep base) ->
  add_wrapper (expandtabs_tab (_column base)) (scope_keyword (_column base))
    (set_buffer base s) v
  = Ok (set_buffer base (s ++ wrapper_text base v)).
Proof.
  intros Hsep. unfold add_wrapper. cbn [_linesep _tabsize set_buffer _buffer].
  rewrite format_FUNC_TEMPLATE; [reflexivity|].
  apply percent_free_app; [exact Hsep | apply percent_free_spaces].
Qed.

(** What [_concat] leaves in the buffer whenever it returns: the prefix,
    one declaration per captured name, the helpers, the suffix. *)
Lemma _concat_shape (self self' : Context) :
  _concat self = Ok self' ->
  exists helpers,
    self' = set_buffer self
              (_buffer self ++ _prefix self
               ++ flatten (map (declaration (expandtabs_tab (_column self))
                                            (_linesep self))
                               (sorted_set (_vars self)))
               ++ helpers ++ _suffix self).
Proof.
  unfold _concat. cbn [_column _vars _func _suffix set_buffer _buffer].
  rewrite (for_each_appends _ (declaration (expandtabs_tab (_column self))
                                           (_linesep self)) self)
    by (intros; apply add_declaration_appends).
  cbn [rbind _column _func set_buffer].
  destruct (for_each _ _ _) as [r|] eqn:E; [|discriminate].
  apply for_each_shape in E; [|intros x s r'; apply add_wrapper_shape].
  destruct E as (t & ->). cbn [rbind _buffer _suffix set_buffer].
  intros H. injection H as <-. exists t.
  now rewrite !append_assoc.
Qed.

(** The same in full when the line separator holds no [%]. *)
Lemma _concat_closed (self : Context) :
  percent_free (_linesep self) ->
  _concat self
  = Ok (set_buffer self
          (_buffer self ++ _prefix self
           ++ flatten (map (declaration (expandtabs_tab (_column self))
                                        (_linesep self))
                           (sorted_set (_vars self)))
           ++ flatten (map (wrapper_text self) (sorted name (_func self)))
           ++ _suffix self)).
Proof.
  intros Hsep. unfold _concat. cbn [_column _vars _func _suffix set_buffer _buffer].
  rewrite (for_each_appends _ (declaration (expandtabs_tab (_column self))
                                           (_linesep self)) self)
    by (intros; apply add_declaration_appends).
  cbn [rbind _column _func set_buffer].
  rewrite (for_each_appends _ (wrapper_text self) self)
    by (intros; apply add_wrapper_appends; exact Hsep).
  cbn [rbind _buffer _suffix set_buffer].
  now rewrite !append_assoc.
Qed.

(* ================================================================== *)
(** * Traversal: [_process] *)

Section Traversal.

Variable uuid4_hex : nat -> string.

Lemma _process_PythonNode (t : string) (cs : list node) (self : Context) (k : nat) :
  _process uuid4_hex (PythonNode t cs) self k = _process_children uuid4_hex cs self k.
Proof.
  cbn [_process]. revert self k.
  induction cs as [|child rest IH]; intros self k; [reflexivity|].
  cbn [_process_children]. unfold bind at 1 3.
  change (match handler uuid4_hex child self k with
          | Ok (a, k') =>
              (fix each (cs : list node) (self : Context) : M Context :=
                 match cs with
                 | [] => ret self
                 | child :: rest =>
                     self <- (if type_of child =? "module" then
                                _process_module child self
                              else if type_of child =? "namedexpr_test" then
                                _process_namedexpr_test_with uuid4_hex
                                  (_process uuid4_hex) child self
                              else if type_of child =? "funcdef" then
                                _process_funcdef child self
                              else if type_of child =? "classdef" then
                                _process_classdef child self
                              else _process uuid4_hex child self) ;;
                     each rest self
                 end) rest a k'
          | Raise e => Raise e
          end
          = match handler uuid4_hex child self k with
            | Ok (a, k') => _process_children uuid4_hex rest a k'
            | Raise e => Raise e
            end).
  destruct (handler uuid4_hex child self k) as [[a k']|e]; [apply IH | reflexivity].
Qed.





Lemma Context_with_inv (e : node) (column tabsize : Z) (linesep : string)
    (k k' : nat) (inner : Context) :
  Context_with (_process uuid4_hex) e column tabsize linesep k = Ok (inner, k') ->
  exists c, _process uuid4_hex e (fresh column tabsize linesep) k = Ok (c, k')
            /\ _concat c = Ok inner.
Proof.
  unfold Context_with, bind, lift.
  destruct (_process uuid4_hex e _ k) as [[c k1]|] eqn:E1; [|discriminate].
  destruct (_concat c) as [r|] eqn:E2; [|discriminate].
  cbn [rbind]. intros H. injection H as <- <-. now exists c.
Qed.




End Traversal.

(* ================================================================== *)
(** * [sorted] *)

Section SortedFacts.
Context {A : Type} (key : A -> string).

Lemma insert_sorted_perm (x : A) (l : list A) :
  Permutation (insert_sorted key x l) (x :: l).
Proof.
  induction l as [|y l IH]; cbn [insert_sorted]; [reflexivity|].
  destruct (String.leb (key x) (key y)); [reflexivity|].
  rewrite IH. apply perm_swap.
Qed.

Lemma sorted_perm (l : list A) : Permutation (sorted key l) l.
Proof.
  induction l as [|x l IH]; cbn [sorted]; [reflexivity|].
  rewrite insert_sorted_perm. now constructor.
Qed.

Lemma insert_sorted_Sorted (x : A) (l : list A) :
  Sorted (key_le key) l -> Sorted (key_le key) (insert_sorted key x l).
Proof.
  induction 1 as [|y l Hl IH Hhd]; cbn [insert_sorted].
  - repeat constructor.
  - destruct (String.leb (key x) (key y)) eqn:E.
    + constructor; [now constructor | now constructor].
    + assert (Hyx : (key_le key) y x).
      { unfold key_le. destruct (String.leb_total (key x) (key y)); congruence. }
      constructor; [exact IH|].
      destruct Hhd as [|z l Hyz]; cbn [insert_sorted].
      * now constructor.
      * destruct (String.leb (key x) (key z)); now constructor.
Qed.

Lemma sorted_Sorted (l : list A) : Sorted (key_le key) (sorted key l).
Proof.
  induction l as [|x l IH]; cbn [sorted]; [constructor|].
  now apply insert_sorted_Sorted.
Qed.
End SortedFacts.

Lemma sorted_set_In (xs : list string) (a : string) :
  In a (sorted_set xs) <-> In a xs.
Proof.
  unfold sorted_set. rewrite <- (nodup_In string_dec xs a). split; intros H.
  - eapply Permutation_in; [apply sorted_perm | exact H].
  - eapply Permutation_in; [symmetry; apply sorted_perm | exact H].
Qed.


(* ================================================================== *)
(** * Line-separator inference *)

Lemma pool_incr_keys (pool : list (string * Z)) (k : string) :
  map fst (pool_incr pool k) = map fst pool.
Proof.
  unfold pool_incr. rewrite map_map. apply map_ext.
  intros [k' n]. cbn [fst snd]. now destruct (k' =? k).
Qed.

Lemma count_lineseps_keys (code : string) :
  map fst (count_lineseps code) = [CR; CRLF; LF].
Proof.
  unfold count_lineseps.
  change [CR; CRLF; LF] with (map fst [(CR, 0%Z); (CRLF, 0%Z); (LF, 0%Z)]).
  generalize [(CR, 0%Z); (CRLF, 0%Z); (LF, 0%Z)] as pool.
  induction (splitlines_keepends code) as [|line lines IH]; intros pool; [reflexivity|].
  cbn [fold_left]. rewrite IH.
  destruct (endswith line CR); [apply pool_incr_keys|].
  destruct (endswith line CRLF); apply pool_incr_keys.
Qed.

(** The sort puts the smallest count first: the first count never exceeds
    the second. *)
Lemma sorted_Z_first_two {A} (key : A -> Z) (d x y z : A) :
  (key (nth 0 (sorted_Z key [x; y; z]) d) >? key (nth 1 (sorted_Z key [x; y; z]) d))%Z
  = false.
Proof.
  cbn [sorted_Z].
  destruct (Z.leb_spec (key y) (key z));
    destruct (Z.leb_spec (key x) (key y));
    destruct (Z.leb_spec (key x) (key z));
    cbn [nth]; rewrite Z.gtb_ltb; apply Z.ltb_ge; lia.
Qed.

(** The comparison of the two first counts never holds, so the answer
    always comes from the environment. *)
Lemma guess_linesep_from_environ (os : OS) (root : node) :
  guess_linesep os root = linesep_from_environ os.
Proof.
  unfold guess_linesep. rewrite count_lineseps_keys.
  now rewrite sorted_Z_first_two.
Qed.

(* ================================================================== *)
(** * [Context] as a whole *)

Lemma Context_init_inv uuid4_hex os loaded root nd column tabsize linesep k self k' :
  Context_init uuid4_hex os loaded root nd column tabsize linesep k = Ok (self, k') ->
  exists ts ls c,
    _process uuid4_hex nd (fresh column ts ls) k = Ok (c, k') /\ _concat c = Ok self.
Proof.
  unfold Context_init. unfold bind at 1. unfold lift at 1.
  destruct (match tabsize with None => _ | Some t => _ end) as [ts|]; [|discriminate].
  cbn [rbind]. unfold bind at 1. unfold lift at 1.
  destruct (match linesep with None => _ | Some l => _ end) as [ls|]; [|discriminate].
  cbn [rbind]. intros H. apply Context_with_inv in H as (c & Hc & Hconcat).
  now exists ts, ls, c.
Qed.



(* ================================================================== *)
(** * The properties of the specification *)

(** C1 (what the code does instead). A source without any assignment
    expression, [a = 1], parses into a module that renders back to the
    source, and [convert] returns the empty string for it, not the source:
    [_process_module] has no body. *)
Theorem convert_construct_free_source_is_lost :
  occurrences (Module Sample.assign_tree) = 0 /\
  get_code (Module Sample.assign_tree) = Sample.assign_text /\
  convert Sample.uuid4_hex Sample.posix Sample.posix Sample.parso_parse Sample.WALRUS_VERSION
    Sample.assign_text "<unknown>" 0 = Ok ("", 0) /\
  Sample.assign_text <> "".
Proof.
  repeat split; try (vm_compute; reflexivity). discriminate.
Qed.

(** C2 (what the code does instead). For the source [(x := f())], with one
    occurrence, [convert] returns the empty string: no helper definition,
    no declaration line and no call are in it. *)
Theorem convert_single_occurrence_is_lost :
  occurrences (Module Sample.single_tree) = 1 /\
  get_code (Module Sample.single_tree) = Sample.single_text /\
  convert Sample.uuid4_hex Sample.posix Sample.posix Sample.parso_parse Sample.WALRUS_VERSION
    Sample.single_text "<unknown>" 0 = Ok ("", 0).
Proof. repeat split; vm_compute; reflexivity. Qed.

(** C3 (what the code does instead). For a source whose two lines both end
    in CR LF, so that CR LF has the strictly highest count, line-separator
    inference on a POSIX system without configuration returns LF. *)
Theorem guess_linesep_misses_the_majority :
  majority Sample.crlf_text = Some CRLF /\
  get_code (Module Sample.crlf_tree) = Sample.crlf_text /\
  guess_linesep Sample.posix (Module Sample.crlf_tree) = Ok LF.
Proof. repeat split; vm_compute; reflexivity. Qed.

(** C4 (what the code does instead). A [Context] at column 8 with tab size
    4 for [(x := f())] renders the helper with every body line at column 8
    like the [def] line, led by the digit 4 rather than by four spaces. *)
Theorem body_lines_are_led_by_the_digits :
  let nuid := Sample.uuid4_hex 0 in
  rmap (fun r => string_of (fst r))
    (Context_init Sample.uuid4_hex Sample.posix Sample.posix Sample.single_atom
       Sample.single_atom 8 (Some 4%Z) (Some LF) 0)
  = Ok ("(__walrus_wrapper_x_" ++ nuid ++ "())"
        ++ spaces 8 ++ "x = locales().get('x')" ++ LF
        ++ LF
        ++ spaces 8 ++ "def __walrus_wrapper_x_" ++ nuid ++ "():" ++ LF
        ++ spaces 8 ++ "4" ++ TRIPLE_QUOTE
           ++ "Wrapper function for assignment expression ` f()`."
           ++ TRIPLE_QUOTE ++ LF
        ++ spaces 8 ++ "4nonlocal x" ++ LF
        ++ spaces 8 ++ "4x =  f()" ++ LF
        ++ spaces 8 ++ "4return x" ++ LF).
Proof. vm_compute. reflexivity. Qed.










(** C6 (what the code does instead). For [(y := (x := 1) + 1)] in a
    [Context] at column 0 with tab size 4, the expression is handled by a
    [Context] of its own and the call of the helper of [x] is in the
    rewritten code that begins the expression recorded for [y]; but that
    expression is the whole string of the nested [Context]: the
    declaration of [x] follows on the same line, and the helper of [x]
    follows with its body lines at the column of its [def] line, led by
    the digit 4 and not by four spaces. The [Context] of the whole
    source holds that line of the helper of [x] twice, both times inside
    the helper of [y]. *)
Theorem nested_helper_is_pasted_into_the_expression :
  let y_id := Sample.uuid4_hex 0 in
  let x_id := Sample.uuid4_hex 1 in
  let recorded :=
    " (__walrus_wrapper_x_" ++ x_id ++ "()) + 1"
    ++ "x = locales().get('x')" ++ LF
    ++ LF
    ++ "def __walrus_wrapper_x_" ++ x_id ++ "():" ++ LF
    ++ "4" ++ TRIPLE_QUOTE ++ "Wrapper function for assignment expression ` 1`."
       ++ TRIPLE_QUOTE ++ LF
    ++ "4global x" ++ LF
    ++ "4x =  1" ++ LF
    ++ "4return x" ++ LF in
  rmap (fun r => string_of (fst r))
    (Context_init Sample.uuid4_hex Sample.posix Sample.posix Sample.nested_atom
       Sample.nested_expr 0 (Some 4%Z) (Some LF) 1)
  = Ok recorded /\
  rmap (fun r => _func (fst r))
    (_process_namedexpr_test Sample.uuid4_hex Sample.nested_occurrence
       (fresh 0 4 LF) 0)
  = Ok [{| name := "y"; expr := recorded; uuid := y_id |}] /\
  rmap (fun r => string_of (fst r))
    (Context_init Sample.uuid4_hex Sample.posix Sample.posix Sample.nested_atom
       Sample.nested_atom 0 (Some 4%Z) (Some LF) 0)
  = Ok ("(__walrus_wrapper_y_" ++ y_id ++ "())"
        ++ "y = locales().get('y')" ++ LF
        ++ LF
        ++ "def __walrus_wrapper_y_" ++ y_id ++ "():" ++ LF
        ++ "4" ++ TRIPLE_QUOTE ++ "Wrapper function for assignment expression `"
           ++ recorded ++ "`." ++ TRIPLE_QUOTE ++ LF
        ++ "4global y" ++ LF
        ++ "4y = " ++ recorded ++ LF
        ++ "4return y" ++ LF).
Proof. repeat split; vm_compute; reflexivity. Qed.

(** C7. When no line ending has the strictly highest count and the
    configured value is none of the names CR, CRLF, LF in any case and
    none of the three separators, line-separator inference raises the
    invalid-environment error; for a recognised value it returns the
    separator the value stands for. *)
Theorem unrecognised_linesep_is_rejected :
  forall os root,
    majority (get_code root) = None ->
    let env := configured_linesep os in
    (upper env <> "CR" -> upper env <> "CRLF" -> upper env <> "LF" ->
     env <> CR -> env <> CRLF -> env <> LF ->
     guess_linesep os root
     = Raise (EnvironError ("invlid line separator " ++ repr env))) /\
    (upper env = "CR" -> guess_linesep os root = Ok CR) /\
    (upper env = "CRLF" -> guess_linesep os root = Ok CRLF) /\
    (upper env = "LF" -> guess_linesep os root = Ok LF) /\
    (In env [CR; CRLF; LF] -> guess_linesep os root = Ok env).
Proof.
  intros os root _ env. rewrite guess_linesep_from_environ.
  unfold linesep_from_environ. fold env. repeat split.
  - intros H1 H2 H3 H4 H5 H6.
    apply String.eqb_neq in H1, H2, H3, H4, H5, H6.
    cbn [existsb]. now rewrite H1, H2, H3, H4, H5, H6.
  - intros ->. reflexivity.
  - intros ->. reflexivity.
  - intros ->. reflexivity.
  - intros [H|[H|[H|[]]]]; rewrite <- H; reflexivity.
Qed.


(** C9, as the code has it. For every source that parses, the traversal
    of the module leaves the [Context] as it is (nothing is written, no
    name and no occurrence is recorded, no id is drawn); [convert] returns
    the empty string whenever tab-size inference and line-separator
    inference both return, and raises the error of the one that fails
    otherwise. *)
Theorem convert_of_a_module_is_empty :
  forall uuid4_hex os loaded parso_parse WALRUS_VERSION text source k module,
    parse os parso_parse WALRUS_VERSION text source false = Ok module ->
    (forall self j, _process uuid4_hex module self j = Ok (self, j)) /\
    convert uuid4_hex os loaded parso_parse WALRUS_VERSION text source k
    = match guess_tabsize os loaded module with
      | Raise e => Raise e
      | Ok _ =>
          match guess_linesep os module with
          | Raise e => Raise e
          | Ok _ => Ok ("", k)
          end
      end.
Proof.
  intros uuid4_hex os loaded parso_parse WALRUS_VERSION text source k module Hparse.
  assert (Hmodule : exists children, module = Module children).
  { unfold parse in Hparse. destruct (rev WALRUS_VERSION); [discriminate|].
    destruct (parso_parse _ _ _) as [children|err|e]; [|discriminate|discriminate].
    injection Hparse as <-. now exists children. }
  destruct Hmodule as (children & ->). split; [reflexivity|].
  unfold convert, bind, lift. rewrite Hparse. cbn [rbind].
  unfold Context_init, bind, lift.
  destruct (guess_tabsize os loaded (Module children)) as [ts|]; [|reflexivity].
  cbn [rbind].
  destruct (guess_linesep os (Module children)) as [ls|]; reflexivity.
Qed.

(** C10. Whenever [_concat] returns, what it puts between the prefix and
    the helpers is, for each distinct captured name in order, the indent,
    the name, [ = locales().get(], the [repr] of the name, [)] and the
    line separator; the callee of the lookup is [locales]. *)
Theorem declaration_line_calls_locales :
  forall self self',
    _concat self = Ok self' ->
    (exists helpers,
        _buffer self'
        = _buffer self ++ _prefix self
          ++ flatten (map (fun var =>
                             expandtabs_tab (_column self) ++ var
                             ++ " = locales().get(" ++ repr var ++ ")"
                             ++ _linesep self)
                          (sorted_set (_vars self)))
          ++ helpers ++ _suffix self) /\
    (forall var, In var (_vars self) ->
       infix_of (expandtabs_tab (_column self) ++ var
                 ++ " = locales().get(" ++ repr var ++ ")" ++ _linesep self)
                (_buffer self')).
Proof.
  intros self self' H. apply _concat_shape in H as (helpers & ->).
  cbn [set_buffer _buffer]. split; [now exists helpers|].
  intros var Hvar.
  apply infix_of_app_r, infix_of_app_r, infix_of_app_l.
  apply (infix_of_flatten _ (map (declaration _ _) _)).
  apply (in_map (declaration _ _)). now apply sorted_set_In.
Qed.

(* ================================================================== *)
(** * The properties at sample inputs *)



(** C7 at an empty module with a tab configured as line separator. *)
Lemma unrecognised_linesep_witness :
  majority (get_code (Module [])) = None /\
  guess_linesep Sample.posix_tab (Module [])
  = Raise (EnvironError ("invlid line separator "
                         ++ repr (configured_linesep Sample.posix_tab))).
Proof.
  split; [reflexivity|].
  apply (proj1 (unrecognised_linesep_is_rejected Sample.posix_tab (Module []) eq_refl));
    vm_compute; discriminate.
Defined.



(** C9 at [a = 1] on a POSIX system without configuration. *)
Lemma convert_of_a_module_witness :
  parse Sample.posix Sample.parso_parse Sample.WALRUS_VERSION
    Sample.assign_text "<unknown>" false = Ok (Module Sample.assign_tree) /\
  convert Sample.uuid4_hex Sample.posix Sample.posix Sample.parso_parse Sample.WALRUS_VERSION
    Sample.assign_text "<unknown>" 0 = Ok ("", 0).
Proof.
  split; [reflexivity|].
  rewrite (proj2 (convert_of_a_module_is_empty
                    Sample.uuid4_hex Sample.posix Sample.posix Sample.parso_parse
                    Sample.WALRUS_VERSION Sample.assign_text "<unknown>" 0
                    (Module Sample.assign_tree) eq_refl)).
  reflexivity.
Defined.

(** C9 as the specification words it fails: with a tab configured as line
    separator, [convert] raises for a source that parses. *)
Lemma convert_raises_for_a_parsed_source :
  ~ (forall uuid4_hex os loaded parso_parse WALRUS_VERSION text source k module,
       parse os parso_parse WALRUS_VERSION text source false = Ok module ->
       convert uuid4_hex os loaded parso_parse WALRUS_VERSION text source k = Ok ("", k)).
Proof.
  intros H.
  specialize (H Sample.uuid4_hex Sample.posix_tab Sample.posix Sample.parso_parse
                Sample.WALRUS_VERSION Sample.assign_text "<unknown>" 0
                (Module Sample.assign_tree) eq_refl).
  vm_compute in H. discriminate.
Qed.

(** C10 at [(x := f())] in a [Context] at column 8. *)
Lemma declaration_line_witness :
  _concat Sample.single_traversed = Ok Sample.single_context /\
  infix_of (expandtabs_tab 8 ++ "x = locales().get('x')" ++ LF)
           (_buffer Sample.single_context).
Proof.
  split; [vm_compute; reflexivity|].
  apply (proj2 (declaration_line_calls_locales
                  Sample.single_traversed Sample.single_context eq_refl) "x").
  vm_compute. tauto.
Defined.

(* ================================================================== *)
(** * Further properties: the traversal *)

Lemma emit_emit (self : Context) (a b : string) :
  emit (emit self a) b = emit self (a ++ b).
Proof.
  unfold emit. destruct (_insert self) eqn:E; cbn; rewrite E;
    unfold set_prefix, set_suffix; cbn; now rewrite append_assoc.
Qed.

Lemma emit_empty (self : Context) : emit self "" = self.
Proof.
  unfold emit. destruct self as [c t l i [] p s b v f]; cbn;
    unfold set_prefix, set_suffix; cbn; now rewrite append_empty_r.
Qed.

Lemma concat_empty_cons (x : string) (l : list string) :
  String.concat "" (x :: l) = x ++ String.concat "" l.
Proof.
  destruct l as [|y l]; [cbn; now rewrite append_empty_r | reflexivity].
Qed.

Lemma concat_empty_flatten (l : list string) : String.concat "" l = flatten l.
Proof.
  induction l as [|x l IH]; [reflexivity|].
  rewrite concat_empty_cons, IH. reflexivity.
Qed.

Section TraversalFacts.

Variable uuid4_hex : nat -> string.

Lemma _process_children_app (pre post : list node) (self : Context) (k : nat) :
  _process_children uuid4_hex (pre ++ post) self k
  = match _process_children uuid4_hex pre self k with
    | Ok (self', k') => _process_children uuid4_hex post self' k'
    | Raise e => Raise e
    end.
Proof.
  revert self k. induction pre as [|c pre IH]; intros self k; [reflexivity|].
  cbn [app _process_children]. unfold bind.
  destruct (handler uuid4_hex c self k) as [[a k1]|]; [apply IH | reflexivity].
Qed.

Lemma handler_default (child : node) :
  has_handler (type_of child) = false ->
  handler uuid4_hex child = _process uuid4_hex child.
Proof.
  unfold has_handler, handler. intros H.
  apply orb_false_iff in H as [H H4]. apply orb_false_iff in H as [H H3].
  apply orb_false_iff in H as [H1 H2]. now rewrite H1, H2, H3, H4.
Qed.


(** A tree without special handlers is written out leaf by leaf. *)
Lemma _process_plain (nd : node) :
  plain nd = true ->
  forall self k,
    _process uuid4_hex nd self k = Ok (emit self (get_code nd), k).
Proof.
  induction nd as [t v p c|t cs IH|cs IH] using node_children_ind;
    intros Hplain self k; [reflexivity| |discriminate].
  rewrite _process_PythonNode. cbn [get_code plain] in *.
  rewrite concat_empty_flatten. revert self k.
  induction IH as [|child rest Hchild _ IHrest]; intros self k.
  - cbn. now rewrite emit_empty.
  - cbn [forallb] in Hplain. apply andb_true_iff in Hplain as [Hc Hrest].
    apply andb_true_iff in Hc as [Hh Hp]. apply negb_true_iff in Hh.
    cbn [_process_children map flatten fold_right]. unfold bind.
    rewrite (handler_default _ Hh), (Hchild Hp), (IHrest Hrest).
    now rewrite emit_emit.
Qed.

(** Every relation between the [Context] before and after that is kept by
    writing text and by recording an occurrence is kept by the traversal. *)
Lemma _process_keeps (R : Context -> Context -> Prop) :
  (forall a, R a a) ->
  (forall a b c, R a b -> R b c -> R a c) ->
  (forall a code, R a (emit a code)) ->
  (forall a v w, R a (record_spec a v w)) ->
  forall nd self k self' k',
    _process uuid4_hex nd self k = Ok (self', k') -> R self self'.
Proof.
  intros Hrefl Htrans Hemit Hrecord.
  assert (Hnamed : forall nd self k self' k',
             _process_namedexpr_test uuid4_hex nd self k = Ok (self', k') ->
             R self self').
  { intros nd self k self' k'.
    unfold _process_namedexpr_test, _process_namedexpr_test_with.
    assert (Hthree : forall cs,
              match cs with
              | [node_name; _; node_expr] =>
                  (name <- lift (value_of node_name) ;;
                   fun k =>
                     (inner <- Context_with (_process uuid4_hex) node_expr
                                 (_indent self) (_tabsize self) (_linesep self) ;;
                      ret (record_spec (emit self (wrapper_call name (uuid4_hex k)))
                             name
                             {| name := name; expr := string_of inner;
                                uuid := uuid4_hex k |})) (S k)) k
              | _ => raise ValueError k
              end = Ok (self', k') -> R self self').
    { intros [|nm [|op [|e [|x cs]]]]; try discriminate.
      unfold bind at 1. unfold lift.
      destruct (value_of nm) as [var|]; [|discriminate]. cbn [rbind].
      unfold bind.
      destruct (Context_with _ e _ _ _ (S k)) as [[inner k1]|]; [|discriminate].
      unfold ret. intros H. injection H as <- <-.
      eapply Htrans; [apply Hemit | apply Hrecord]. }
    destruct nd as [t v p c|t cs|cs]; [discriminate| |];
      intros H; apply (Hthree cs);
      destruct cs as [|nm [|op [|e [|x cs]]]]; exact H. }
  induction nd as [t v p c|t cs IH|cs IH] using node_children_ind;
    intros self k self' k'.
  - intros H. injection H as <- <-. apply Hemit.
  - rewrite _process_PythonNode. revert self k.
    induction IH as [|child rest Hchild _ IHrest]; intros self k H.
    + injection H as <- <-. apply Hrefl.
    + cbn [_process_children] in H. unfold bind in H.
      destruct (handler uuid4_hex child self k) as [[a k1]|] eqn:E; [|discriminate].
      apply Htrans with a; [|apply (IHrest _ _ H)].
      unfold handler in E.
      destruct (type_of child =? "module").
      { injection E as <- <-. apply Hrefl. }
      destruct (type_of child =? "namedexpr_test"); [now apply Hnamed in E|].
      destruct (type_of child =? "funcdef").
      { injection E as <- <-. apply Hrefl. }
      destruct (type_of child =? "classdef").
      { injection E as <- <-. apply Hrefl. }
      now apply Hchild in E.
  - intros H. injection H as <- <-. apply Hrefl.
Qed.

End TraversalFacts.

Lemma recognised_percent_free (sep : string) :
  recognised sep -> percent_free sep.
Proof. intros [<-|[<-|[<-|[]]]]; reflexivity. Qed.

Lemma leb_refl (s : string) : String.leb s s = true.
Proof. now destruct (String.leb_total s s). Qed.

(** The sort is stable: it keeps the order of the entries of one key. *)
Lemma insert_sorted_filter {A} (key : A -> string) (n : string) (x : A) (l : list A) :
  filter (fun v => key v =? n) (insert_sorted key x l)
  = filter (fun v => key v =? n) (x :: l).
Proof.
  induction l as [|y l IH]; [reflexivity|].
  cbn [insert_sorted]. destruct (String.leb (key x) (key y)) eqn:E; [reflexivity|].
  cbn [filter] in *. rewrite IH.
  destruct (key x =? n) eqn:Ex; [|reflexivity].
  apply String.eqb_eq in Ex. subst n.
  destruct (key y =? key x) eqn:Ey; [|reflexivity].
  apply String.eqb_eq in Ey. rewrite Ey, leb_refl in E. discriminate.
Qed.

Lemma sorted_filter {A} (key : A -> string) (n : string) (l : list A) :
  filter (fun v => key v =? n) (sorted key l) = filter (fun v => key v =? n) l.
Proof.
  induction l as [|x l IH]; [reflexivity|].
  cbn [sorted]. rewrite insert_sorted_filter. cbn [filter]. now rewrite IH.
Qed.



(** X3. Whatever the tree, a [Context] that is returned has written
    nothing to its suffix and has kept its insertion flag: its string is
    its prefix followed by the declarations and the helpers. *)
Theorem suffix_is_never_written :
  forall uuid4_hex os loaded root nd column tabsize linesep k self k',
    Context_init uuid4_hex os loaded root nd column tabsize linesep k = Ok (self, k') ->
    _insert self = true /\
    _suffix self = "" /\
    exists helpers,
      string_of self
      = _prefix self
        ++ flatten (map (declaration (expandtabs_tab column) (_linesep self))
                        (sorted_set (_vars self)))
        ++ helpers.
Proof.
  intros uuid4_hex os loaded root nd column tabsize linesep k self k' Hinit.
  apply Context_init_inv in Hinit as (ts & ls & c & Hc & Hconcat).
  set (R := fun a b : Context =>
              _column b = _column a /\ _buffer b = _buffer a /\
              (_insert a = true -> _insert b = true /\ _suffix b = _suffix a)).
  assert (Hkeep : R (fresh column ts ls) c).
  { apply (_process_keeps uuid4_hex R) with (nd := nd) (k := k) (k' := k');
      [| | | |exact Hc]; unfold R.
    - intros a. tauto.
    - intros a b d (Hc1 & Hb1 & H1) (Hc2 & Hb2 & H2).
      split; [congruence|]. split; [congruence|]. intros Ha.
      destruct (H1 Ha) as [Hb Hs]. destruct (H2 Hb). split; congruence.
    - intros a code. unfold emit.
      destruct (_insert a) eqn:E; cbn; rewrite ?E; intuition congruence.
    - intros a v w. cbn. tauto. }
  destruct Hkeep as (Hcol & Hbuf & Hsuf).
  cbn [fresh _column _buffer _insert _suffix] in Hcol, Hbuf, Hsuf.
  destruct (Hsuf eq_refl) as [Hins Hsuffix].
  apply _concat_shape in Hconcat as (helpers & ->).
  cbn [set_buffer _insert _suffix _prefix _vars _linesep string_of _buffer].
  repeat split; [exact Hins | exact Hsuffix |].
  exists helpers. now rewrite Hbuf, Hcol, Hsuffix, append_empty_r.
Qed.

(** X4. With one of the three line separators, [_concat] never raises and
    changes the buffer only: after the prefix and the declarations it
    writes one helper for each recorded occurrence, in the order of the
    names, the occurrences of one name in the order they were recorded;
    then the suffix. *)
Theorem helpers_follow_the_order_of_names :
  forall self,
    recognised (_linesep self) ->
    exists order,
      Permutation order (_func self) /\
      Sorted (fun v w => String.leb (name v) (name w) = true) order /\
      (forall n, filter (fun v => name v =? n) order
                 = filter (fun v => name v =? n) (_func self)) /\
      _concat self
      = Ok (set_buffer self
              (_buffer self ++ _prefix self
               ++ flatten (map (declaration (expandtabs_tab (_column self))
                                            (_linesep self))
                               (sorted_set (_vars self)))
               ++ flatten (map (wrapper_text self) order)
               ++ _suffix self)).
Proof.
  intros self Hsep. exists (sorted name (_func self)).
  repeat split.
  - apply sorted_perm.
  - apply (sorted_Sorted name).
  - intros n. apply sorted_filter.
  - apply _concat_closed. now apply recognised_percent_free.
Qed.

(* ================================================================== *)
(** * Further properties: the heuristic detectors *)

Lemma stepped_over_inv (nd : node) :
  stepped_over nd = true ->
  exists t v p c, nd = Leaf t v p c /\ (t =? "suite") = false.
Proof.
  destruct nd as [t v p c| |]; try discriminate. cbn.
  intros H. apply negb_true_iff in H. now exists t, v, p, c.
Qed.

Lemma guess_tabsize_PythonNode (os loaded : OS) (t : string) (cs : list node) :
  guess_tabsize os loaded (PythonNode t cs) = guess_tabsize os loaded (Module cs).
Proof. reflexivity. Qed.

Lemma guess_tabsize_leaf_cons (os loaded : OS) (l : node) (cs : list node) :
  stepped_over l = true ->
  guess_tabsize os loaded (Module (l :: cs)) = guess_tabsize os loaded (Module cs).
Proof.
  intros Hl. apply stepped_over_inv in Hl as (t & v & p & c & -> & Ht).
  cbn [guess_tabsize type_of]. now rewrite Ht.
Qed.

Lemma guess_tabsize_interior_cons (os loaded : OS) (child : node) (rest : list node) :
  descended_into child = true ->
  guess_tabsize os loaded (Module (child :: rest)) = guess_tabsize os loaded child.
Proof.
  intros Hchild. cbn [guess_tabsize].
  destruct child as [t v p c|t cs|cs]; [discriminate| |];
    cbn [descended_into] in Hchild; now rewrite Hchild.
Qed.

Lemma guess_tabsize_leaves (os loaded : OS) (leaves : list node) :
  forallb stepped_over leaves = true ->
  guess_tabsize os loaded (Module leaves)
  = int (getenv os "WALRUS_TABSIZE" (__walrus_tabsize__ loaded)).
Proof.
  induction leaves as [|l leaves IH]; intros Hleaves; [reflexivity|].
  cbn [forallb] in Hleaves. apply andb_true_iff in Hleaves as [Hl Hrest].
  rewrite (guess_tabsize_leaf_cons os loaded l leaves Hl). exact (IH Hrest).
Qed.

Lemma guess_tabsize_first_interior (os loaded : OS) (leaves : list node)
    (child : node) (rest : list node) :
  forallb stepped_over leaves = true ->
  descended_into child = true ->
  guess_tabsize os loaded (Module (leaves ++ child :: rest)) = guess_tabsize os loaded child.
Proof.
  intros Hleaves Hchild. induction leaves as [|l leaves IH].
  - now apply guess_tabsize_interior_cons.
  - cbn [forallb] in Hleaves. apply andb_true_iff in Hleaves as [Hl Hrest].
    cbn [app]. rewrite (guess_tabsize_leaf_cons os loaded l _ Hl). exact (IH Hrest).
Qed.

(** X5. [guess_tabsize] steps over the leaves in front and answers with
    what the first interior child gives, whatever comes after that child:
    a block that comes later is not looked at. With leaves only, it
    answers with the configured tab size. *)
Theorem guess_tabsize_follows_the_first_interior_child :
  forall os loaded leaves,
    forallb stepped_over leaves = true ->
    guess_tabsize os loaded (Module leaves)
      = int (getenv os "WALRUS_TABSIZE" (__walrus_tabsize__ loaded)) /\
    (forall t, guess_tabsize os loaded (PythonNode t leaves)
               = int (getenv os "WALRUS_TABSIZE" (__walrus_tabsize__ loaded))) /\
    (forall child rest,
        descended_into child = true ->
        guess_tabsize os loaded (Module (leaves ++ child :: rest))
          = guess_tabsize os loaded child /\
        forall t, guess_tabsize os loaded (PythonNode t (leaves ++ child :: rest))
                  = guess_tabsize os loaded child).
Proof.
  intros os loaded leaves Hleaves.
  split; [now apply guess_tabsize_leaves|]. split.
  - intros t. rewrite guess_tabsize_PythonNode. now apply guess_tabsize_leaves.
  - intros child rest Hchild. split; [now apply guess_tabsize_first_interior|].
    intros t. rewrite guess_tabsize_PythonNode.
    now apply guess_tabsize_first_interior.
Qed.

Lemma guess_tabsize_suite_cons (os loaded : OS) (child : node) (rest : list node) :
  (type_of child =? "suite") = true ->
  guess_tabsize os loaded (Module (child :: rest))
  = rbind (children_of child) (fun ccs =>
      match nth_error ccs 1 with
      | None => Raise IndexError
      | Some stmt => rbind (get_first_leaf stmt) column_of
      end).
Proof. intros H. cbn [guess_tabsize]. now rewrite H. Qed.

Lemma get_first_leaf_is_leaf (nd leaf : node) :
  get_first_leaf nd = Ok leaf -> exists t v p c, leaf = Leaf t v p c.
Proof.
  induction nd as [t v p c|t cs IH|cs IH] using node_children_ind; cbn.
  - intros H. injection H as <-. now exists t, v, p, c.
  - destruct IH as [|child rest Hchild _]; [discriminate | exact Hchild].
  - destruct IH as [|child rest Hchild _]; [discriminate | exact Hchild].
Qed.

Lemma subtrees_self (nd : node) : In nd (subtrees nd).
Proof. destruct nd; cbn; auto. Qed.

Lemma subtrees_children (nd : node) (cs : list node) (c x : node) :
  children_of nd = Ok cs -> In c cs -> In x (subtrees c) -> In x (subtrees nd).
Proof.
  intros Hcs Hc Hx. destruct nd as [t v p col|t cs'|cs']; [discriminate| |];
    injection Hcs as ->; cbn [subtrees]; right; apply in_flat_map; now exists c.
Qed.

Lemma guess_tabsize_children (os loaded : OS) (cs : list node) :
  Forall (fun c => forall z,
            guess_tabsize os loaded c = Ok z ->
            (0 <= z)%Z /\ (exists suite, In suite (subtrees c) /\ block_column suite z)
            \/ int (getenv os "WALRUS_TABSIZE" (__walrus_tabsize__ loaded)) = Ok z) cs ->
  forall z,
    guess_tabsize os loaded (Module cs) = Ok z ->
    (0 <= z)%Z /\
    (exists suite, (exists c, In c cs /\ In suite (subtrees c)) /\ block_column suite z)
    \/ int (getenv os "WALRUS_TABSIZE" (__walrus_tabsize__ loaded)) = Ok z.
Proof.
  intros IH z. induction IH as [|child rest Hchild _ IHrest]; [now right|].
  destruct (type_of child =? "suite") eqn:Et.
  - rewrite (guess_tabsize_suite_cons os loaded child rest Et).
    destruct (children_of child) as [ccs|] eqn:Ec; [|discriminate]. cbn [rbind].
    destruct (nth_error ccs 1) as [stmt|] eqn:Es; [|discriminate].
    destruct (get_first_leaf stmt) as [leaf|] eqn:El; [|discriminate].
    cbn [rbind]. intros Hz. left.
    destruct (get_first_leaf_is_leaf _ _ El) as (ty & lv & lp & lc & ->).
    split; [cbn in Hz; injection Hz as <-; lia|].
    exists child. split.
    + exists child. split; [now left | apply subtrees_self].
    + split; [now apply String.eqb_eq|]. now exists ccs, stmt, (Leaf ty lv lp lc).
  - assert (Hlift : forall suite,
              (exists c, In c rest /\ In suite (subtrees c)) ->
              exists c, In c (child :: rest) /\ In suite (subtrees c)).
    { intros suite (c & Hc & Hs). exists c. split; [now right | exact Hs]. }
    destruct child as [ty lv lp lc|ct ccs|ccs].
    + rewrite guess_tabsize_leaf_cons by (cbn in *; now rewrite Et).
      intros Hz. destruct (IHrest Hz) as [(Hpos & suite & Hin & Hb)|Hint];
        [left|now right].
      split; [exact Hpos|]. exists suite. split; [now apply Hlift | exact Hb].
    + rewrite guess_tabsize_interior_cons by (cbn in *; now rewrite Et).
      intros Hz. destruct (Hchild z Hz) as [(Hpos & suite & Hin & Hb)|Hint];
        [left|now right].
      split; [exact Hpos|]. exists suite. split; [|exact Hb].
      eexists. split; [now left | exact Hin].
    + rewrite guess_tabsize_interior_cons by reflexivity.
      intros Hz. destruct (Hchild z Hz) as [(Hpos & suite & Hin & Hb)|Hint];
        [left|now right].
      split; [exact Hpos|]. exists suite. split; [|exact Hb].
      eexists. split; [now left | exact Hin].
Qed.

(** X6. Whenever [guess_tabsize] returns, the tab size is the column of a
    leaf of the tree, the first leaf of the second child of a node of type
    [suite], which is not negative; or it is the configured value read as
    an integer: the value of [WALRUS_TABSIZE] at the call or, without
    one, what the module read when it was loaded. It is not negative when
    the variable was set at neither time. Zero is not excluded. *)
Theorem guess_tabsize_is_a_column_or_the_configured_value :
  forall os loaded nd z,
    guess_tabsize os loaded nd = Ok z ->
    ((0 <= z)%Z /\ (exists suite, In suite (subtrees nd) /\ block_column suite z)
     \/ int (getenv os "WALRUS_TABSIZE" (__walrus_tabsize__ loaded)) = Ok z) /\
    (environ_get (environ os) "WALRUS_TABSIZE" = None ->
     environ_get (environ loaded) "WALRUS_TABSIZE" = None ->
     (0 <= z)%Z).
Proof.
  intros os loaded nd z H.
  assert (Hcases :
            (0 <= z)%Z /\ (exists suite, In suite (subtrees nd) /\ block_column suite z)
            \/ int (getenv os "WALRUS_TABSIZE" (__walrus_tabsize__ loaded)) = Ok z).
  { revert z H.
    induction nd as [t v p c|t cs IH|cs IH] using node_children_ind;
      intros z; [discriminate|rewrite guess_tabsize_PythonNode|].
    all: intros Hz;
      destruct (guess_tabsize_children os loaded cs IH z Hz)
        as [(Hpos & suite & (c & Hc & Hin) & Hb)|Hint]; [left|now right].
    all: split; [exact Hpos|]; exists suite; split; [|exact Hb].
    all: eapply subtrees_children; [reflexivity | exact Hc | exact Hin]. }
  split; [exact Hcases|].
  intros Hunset Hloaded. destruct Hcases as [[Hz _]|Hint]; [exact Hz|].
  unfold __walrus_tabsize__, getenv in Hint. rewrite Hunset, Hloaded in Hint.
  cbn in Hint. injection Hint as <-. lia.
Qed.

(** X7. Whenever [guess_linesep] returns, the separator is one of the
    three, and it is the one the configured value stands for: the same
    for every tree. *)
Theorem guess_linesep_answers_with_the_configured_separator :
  forall os root sep,
    guess_linesep os root = Ok sep ->
    recognised sep /\
    (forall root', guess_linesep os root' = Ok sep) /\
    (sep = configured_linesep os
     \/ upper (configured_linesep os) = "CR" /\ sep = CR
     \/ upper (configured_linesep os) = "CRLF" /\ sep = CRLF
     \/ upper (configured_linesep os) = "LF" /\ sep = LF).
Proof.
  intros os root sep. rewrite guess_linesep_from_environ.
  intros H. split; [|split].
  - unfold linesep_from_environ, recognised in *.
    destruct (upper (configured_linesep os) =? "CR");
      [injection H as <-; cbn; tauto|].
    destruct (upper (configured_linesep os) =? "CRLF");
      [injection H as <-; cbn; tauto|].
    destruct (upper (configured_linesep os) =? "LF");
      [injection H as <-; cbn; tauto|].
    destruct (existsb _ _) eqn:E; [|discriminate].
    injection H as <-. cbn [existsb] in E.
    repeat (apply orb_true_iff in E as [E|E]);
      try discriminate; apply String.eqb_eq in E; cbn; auto.
  - intros root'. now rewrite guess_linesep_from_environ.
  - unfold linesep_from_environ in H.
    destruct (upper (configured_linesep os) =? "CR") eqn:E1;
      [apply String.eqb_eq in E1; injection H as <-; tauto|].
    destruct (upper (configured_linesep os) =? "CRLF") eqn:E2;
      [apply String.eqb_eq in E2; injection H as <-; tauto|].
    destruct (upper (configured_linesep os) =? "LF") eqn:E3;
      [apply String.eqb_eq in E3; injection H as <-; tauto|].
    destruct (existsb _ _); [|discriminate]. injection H as <-. now left.
Qed.

Lemma pool_incr_CR (a b c : Z) :
  pool_incr [(CR, a); (CRLF, b); (LF, c)] CR
  = [(CR, (a + 1)%Z); (CRLF, b); (LF, c)].
Proof. reflexivity. Qed.

Lemma pool_incr_CRLF (a b c : Z) :
  pool_incr [(CR, a); (CRLF, b); (LF, c)] CRLF
  = [(CR, a); (CRLF, (b + 1)%Z); (LF, c)].
Proof. reflexivity. Qed.

Lemma pool_incr_LF (a b c : Z) :
  pool_incr [(CR, a); (CRLF, b); (LF, c)] LF
  = [(CR, a); (CRLF, b); (LF, (c + 1)%Z)].
Proof. reflexivity. Qed.

Lemma count_lineseps_from (lines : list string) :
  forall a b c,
    exists a' b' c',
      fold_left
        (fun pool line =>
           if endswith line CR then pool_incr pool CR
           else if endswith line CRLF then pool_incr pool CRLF
           else pool_incr pool LF)
        lines [(CR, a); (CRLF, b); (LF, c)]
      = [(CR, a'); (CRLF, b'); (LF, c')] /\
      (a <= a')%Z /\ (b <= b')%Z /\ (c <= c')%Z /\
      (a' + b' + c' = a + b + c + Z.of_nat (length lines))%Z.
Proof.
  induction lines as [|line lines IH]; intros a b c.
  - exists a, b, c. cbn. repeat split; lia.
  - cbn [fold_left length].
    destruct (endswith line CR);
      [|destruct (endswith line CRLF)];
      rewrite ?pool_incr_CR, ?pool_incr_CRLF, ?pool_incr_LF;
      match goal with
      | |- context [fold_left _ lines [(CR, ?x); (CRLF, ?y); (LF, ?z)]] =>
          destruct (IH x y z) as (a' & b' & c' & -> & Ha & Hb & Hc & Hsum)
      end;
      exists a', b', c'; repeat split; lia.
Qed.

(** X8. The three counters of [guess_linesep] start at zero and every
    line of the source adds one to exactly one of them: none is negative
    and their sum is the number of lines. *)
Theorem every_line_is_counted_once :
  forall code,
    let pool := count_lineseps code in
    (0 <= pool_get pool CR)%Z /\
    (0 <= pool_get pool CRLF)%Z /\
    (0 <= pool_get pool LF)%Z /\
    (pool_get pool CR + pool_get pool CRLF + pool_get pool LF
     = Z.of_nat (length (splitlines_keepends code)))%Z.
Proof.
  intros code pool. unfold pool, count_lineseps.
  destruct (count_lineseps_from (splitlines_keepends code) 0 0 0)
    as (a & b & c & -> & Ha & Hb & Hc & Hsum).
  cbn. repeat split; lia.
Qed.

(* ================================================================== *)
(** * Further properties: the driver *)

Lemma reverse_append (s acc : string) : reverse acc s = reverse "" s ++ acc.
Proof.
  revert acc. induction s as [|c s IH]; intros acc; [reflexivity|].
  cbn [reverse]. rewrite (IH (String c acc)), (IH (String c "")).
  now rewrite append_assoc.
Qed.

Lemma reverse_involutive (s : string) : reverse "" (reverse "" s) = s.
Proof.
  induction s as [|c s IH]; [reflexivity|].
  cbn [reverse]. rewrite (reverse_append s).
  assert (H : forall a b, reverse b (a ++ String c "") = String c (reverse b a)).
  { induction a as [|x a IHa]; intros b; [reflexivity|]. cbn. apply IHa. }
  now rewrite H, IH.
Qed.

Lemma no_space_append (a b : string) :
  no_space a = true -> no_space b = true -> no_space (a ++ b) = true.
Proof.
  induction a as [|c a IH]; cbn [no_space append]; intros Ha Hb; [exact Hb|].
  apply andb_true_iff in Ha as [Hc Ha]. rewrite Hc. cbn [andb]. auto.
Qed.

Lemma no_space_reverse (s : string) :
  no_space s = true -> no_space (reverse "" s) = true.
Proof.
  induction s as [|c s IH]; cbn [no_space reverse]; intros H; [reflexivity|].
  apply andb_true_iff in H as [Hc Hs].
  rewrite reverse_append. apply no_space_append; [auto|].
  cbn [no_space]. now rewrite Hc.
Qed.

Lemma skip_left_no_space (s : string) : no_space s = true -> skip_left s = s.
Proof.
  destruct s as [|c s]; cbn [no_space skip_left]; intros H; [reflexivity|].
  apply andb_true_iff in H as [Hc _]. apply negb_true_iff in Hc. now rewrite Hc.
Qed.

Lemma skip_space_no_space (s : string) : no_space s = true -> skip_space s = s.
Proof.
  intros H. unfold skip_space. rewrite (skip_left_no_space s H).
  rewrite (skip_left_no_space _ (no_space_reverse s H)).
  apply reverse_involutive.
Qed.

Lemma no_space_string_of_uint (d : Decimal.uint) :
  no_space (NilEmpty.string_of_uint d) = true.
Proof. induction d; cbn [NilEmpty.string_of_uint no_space]; auto. Qed.

Lemma int_digits_digit (acc : Z) (b : bool) (c : ascii) (r : string) :
  is_digit c = true ->
  int_digits acc b (String c r)
  = int_digits (10 * acc + Z.of_nat (nat_of_ascii c - 48)) true r.
Proof. unfold is_digit. intros H. cbn [int_digits]. now rewrite H. Qed.

Local Ltac digit_step :=
  rewrite int_digits_digit by reflexivity;
  match goal with
  | |- context [Z.of_nat ?n] =>
      let v := eval vm_compute in (Z.of_nat n) in change (Z.of_nat n) with v
  end.

Lemma int_digits_acc (d : Decimal.uint) :
  forall p,
    int_digits (Z.pos p) true (NilEmpty.string_of_uint d)
    = Ok (Z.pos (Pos.of_uint_acc d p)).
Proof.
  induction d; intros p; cbn [NilEmpty.string_of_uint Pos.of_uint_acc];
    [reflexivity|..];
    digit_step; rewrite <- IHd; f_equal; lia.
Qed.

Lemma int_digits_uint (d : Decimal.uint) :
  int_digits 0 true (NilEmpty.string_of_uint d) = Ok (Z.of_N (Pos.of_uint d)).
Proof.
  induction d; cbn [NilEmpty.string_of_uint Pos.of_uint];
    [reflexivity | digit_step; exact IHd | ..];
    digit_step; apply int_digits_acc.
Qed.

Lemma int_digits_uint_first (d : Decimal.uint) :
  d <> Decimal.Nil ->
  int_digits 0 false (NilEmpty.string_of_uint d) = Ok (Z.of_N (Pos.of_uint d)).
Proof.
  intros Hd. rewrite <- int_digits_uint.
  destruct d; [contradiction|..]; cbn [NilEmpty.string_of_uint];
    now rewrite (int_digits_digit 0 false), (int_digits_digit 0 true) by reflexivity.
Qed.

(** [int] reads back what [str] writes for an integer. *)
Lemma int_str_int (z : Z) : int (str_int z) = Ok z.
Proof.
  unfold int, str_int. destruct z as [|p|p]; [reflexivity| |].
  - cbn [Z.to_int NilEmpty.string_of_int].
    rewrite skip_space_no_space by apply no_space_string_of_uint.
    pose proof (int_digits_uint_first _ (Unsigned.to_uint_nonnil p)) as H.
    rewrite Unsigned.of_to in H. cbn [Z.of_N] in H.
    destruct (Pos.to_uint p); cbn [NilEmpty.string_of_uint] in *; exact H.
  - cbn [Z.to_int NilEmpty.string_of_int].
    rewrite skip_space_no_space
      by (cbn [no_space]; apply no_space_string_of_uint).
    rewrite (int_digits_uint_first _ (Unsigned.to_uint_nonnil p)).
    now rewrite Unsigned.of_to.
Qed.

(** X9. The tab size [main] stores in the environment is the one
    [guess_tabsize] reads back: after the set-up of [main], for a tree in
    which the leaves come first and no interior node is met, the answer is
    the [--tabsize] argument, whether or not [main] then rejects the line
    separator. *)
Theorem main_tabsize_is_read_back :
  forall args os loaded leaves,
    forallb stepped_over leaves = true ->
    guess_tabsize (fst (main_environ args os)) loaded (Module leaves)
    = Ok (Args.tabsize args).
Proof.
  intros args os loaded leaves Hleaves.
  rewrite (guess_tabsize_leaves _ _ leaves Hleaves).
  rewrite <- (int_str_int (Args.tabsize args)). f_equal.
  unfold main_environ.
  destruct (upper (Args.linesep args) =? "CR"); [reflexivity|].
  destruct (upper (Args.linesep args) =? "CRLF"); [reflexivity|].
  destruct (upper (Args.linesep args) =? "LF"); [reflexivity|].
  destruct (existsb _ _); reflexivity.
Qed.

(** X10. [main] and [guess_linesep] read a line separator in the same way.
    When [main] accepts its [--linesep] argument, the value it stores is
    one of the three separators, it is what [guess_linesep] would have
    answered for the argument itself, and [guess_linesep] answers with it
    afterwards; when [main] raises, [guess_linesep] would have raised for
    the argument too, and the stored value is the one from before. *)
Theorem main_accepts_what_guess_linesep_accepts :
  forall args os root,
    let direct :=
      guess_linesep (setenv os "POSEUR_LINESEP" (Args.linesep args)) root in
    let os' := fst (main_environ args os) in
    match snd (main_environ args os) with
    | Ok _ =>
        exists sep,
          recognised sep /\
          direct = Ok sep /\
          environ_get (environ os') "POSEUR_LINESEP" = Some sep /\
          guess_linesep os' root = Ok sep
    | Raise e =>
        e = EnvironError ("invalid line separator " ++ repr (Args.linesep args)) /\
        direct = Raise (EnvironError ("invlid line separator "
                                      ++ repr (Args.linesep args))) /\
        environ_get (environ os') "POSEUR_LINESEP"
        = environ_get (environ os) "POSEUR_LINESEP"
    end.
Proof.
  intros args os root direct os'. subst direct os'.
  rewrite !guess_linesep_from_environ.
  unfold main_environ, linesep_from_environ, configured_linesep, getenv.
  cbn [setenv environ environ_get String.eqb Ascii.eqb Bool.eqb].
  destruct (upper (Args.linesep args) =? "CR").
  { cbn. exists CR. unfold recognised. cbn. tauto. }
  destruct (upper (Args.linesep args) =? "CRLF").
  { cbn. exists CRLF. unfold recognised. cbn. tauto. }
  destruct (upper (Args.linesep args) =? "LF").
  { cbn. exists LF. unfold recognised. cbn. tauto. }
  destruct (existsb _ _) eqn:E.
  - cbn [fst snd environ setenv environ_get String.eqb Ascii.eqb Bool.eqb].
    exists (Args.linesep args).
    assert (Hrec : recognised (Args.linesep args)).
    { cbn [existsb] in E. unfold recognised.
      repeat (apply orb_true_iff in E as [E|E]);
        try discriminate; apply String.eqb_eq in E; cbn; auto. }
    repeat split; auto.
    destruct Hrec as [<-|[<-|[<-|[]]]]; reflexivity.
  - cbn. repeat split.
Qed.

Lemma read_write_same (fs : list (string * string)) (f text : string) :
  read_file (write_file fs f text) f = Some text.
Proof.
  induction fs as [|[g old] fs IH]; cbn [write_file read_file].
  - now rewrite String.eqb_refl.
  - destruct (g =? f) eqn:E; cbn [read_file]; rewrite E; [reflexivity | exact IH].
Qed.

Lemma read_write_other (fs : list (string * string)) (f g text : string) :
  g <> f -> read_file (write_file fs f text) g = read_file fs g.
Proof.
  intros Hne. induction fs as [|[h old] fs IH]; cbn [write_file read_file].
  - apply String.eqb_neq in Hne. now rewrite String.eqb_sym, Hne.
  - destruct (h =? f) eqn:E; cbn [read_file].
    + apply String.eqb_eq in E. subst h.
      apply String.eqb_neq in Hne. now rewrite String.eqb_sym, Hne.
    + now rewrite IH.
Qed.

Lemma states_get_quiet (value : string) :
  states_get BOOLEAN_STATES value false = existsb (String.eqb value) quiet_values.
Proof.
  unfold BOOLEAN_STATES, quiet_values. cbn [states_get existsb].
  repeat match goal with
         | |- context [?key =? value] =>
             destruct (key =? value) eqn:?E;
             [apply String.eqb_eq in E; subst value; reflexivity
             |rewrite ?(String.eqb_sym value key), ?E; clear E]
         end.
  reflexivity.
Qed.

(** X11. [walrus] prints its one line unless [WALRUS_QUIET], folded to
    lower case, is [1], [yes], [true] or [on], and does so before it opens
    the file. It leaves every other file as it is. When it returns, the
    file holds what [convert] returned for its text; when the file is
    missing or [convert] raises, no file is changed. *)
Theorem walrus_rewrites_its_file_only :
  forall uuid4_hex os loaded parso_parse WALRUS_VERSION filename w k,
    let run := walrus uuid4_hex os loaded parso_parse WALRUS_VERSION filename w k in
    let w' := fst run in
    stdout w'
    = (if existsb (String.eqb (casefold (getenv os "WALRUS_QUIET" "0")))
                  quiet_values
       then stdout w
       else (stdout w
             ++ [("Now converting " ++ repr filename ++ "...")%string])%list) /\
    (forall other, other <> filename ->
                   read_file (files w') other = read_file (files w) other) /\
    match snd run with
    | inr k' =>
        exists old text,
          read_file (files w) filename = Some old /\
          convert uuid4_hex os loaded parso_parse WALRUS_VERSION old filename k
            = Ok (text, k') /\
          read_file (files w') filename = Some text
    | inl (FileNotFoundError f) =>
        f = filename /\ read_file (files w) filename = None /\ files w' = files w
    | inl (Raised e) =>
        exists old,
          read_file (files w) filename = Some old /\
          convert uuid4_hex os loaded parso_parse WALRUS_VERSION old filename k = Raise e /\
          files w' = files w
    end.
Proof.
  intros uuid4_hex os loaded parso_parse WALRUS_VERSION filename w k run w'.
  subst w' run. unfold walrus. rewrite states_get_quiet.
  set (quiet := existsb _ quiet_values).
  set (w1 := if negb quiet then print w _ else w).
  assert (Hfiles : files w1 = files w) by (subst w1; now destruct quiet).
  assert (Hout : stdout w1
                 = (if quiet then stdout w
                    else (stdout w
                          ++ [("Now converting " ++ repr filename ++ "...")%string])%list))
    by (subst w1; now destruct quiet).
  rewrite Hfiles.
  destruct (read_file (files w) filename) as [old|] eqn:Eread.
  - destruct (convert _ _ _ _ _ old filename k) as [[text k']|e] eqn:Econv;
      cbn [fst snd files stdout].
    + split; [exact Hout|]. split.
      * intros other Hother. now apply read_write_other.
      * exists old, text. repeat split; auto. apply read_write_same.
    + split; [exact Hout|]. split; [now rewrite Hfiles|].
      exists old. now rewrite Hfiles.
  - cbn [fst snd]. split; [exact Hout|]. split; [now rewrite Hfiles|].
    now rewrite Hfiles.
Qed.

Lemma map_result_Forall2 {A B} (f : A -> result B) (l : list A) (r : list B) :
  map_result f l = Ok r -> Forall2 (fun x y => f x = Ok y) l r.
Proof.
  revert r. induction l as [|x l IH]; cbn [map_result]; intros r H.
  - injection H as <-. constructor.
  - destruct (f x) as [y|] eqn:E; [|discriminate]. cbn [rbind] in H.
    destruct (map_result f l) as [r'|]; [|discriminate].
    injection H as <-. constructor; auto.
Qed.

Lemma Forall2_In_r {A B} (R : A -> B -> Prop) (l : list A) (r : list B) (y : B) :
  Forall2 R l r -> In y r -> exists x, In x l /\ R x y.
Proof.
  induction 1 as [|x y' l r Hxy _ IH]; cbn; [tauto|].
  intros [<-|Hin]; [exists x; auto|].
  destruct (IH Hin) as (x' & Hx' & HR). exists x'. auto.
Qed.

Lemma Forall2_In_l {A B} (R : A -> B -> Prop) (l : list A) (r : list B) (x : A) :
  Forall2 R l r -> In x l -> exists y, In y r /\ R x y.
Proof.
  induction 1 as [|x' y l r Hxy _ IH]; cbn; [tauto|].
  intros [<-|Hin]; [exists y; auto|].
  destruct (IH Hin) as (y' & Hy' & HR). exists y'. auto.
Qed.

Lemma grammar_match_digits (name : string) (major minor : ascii) :
  grammar_match name = Some (major, minor) ->
  is_digit major = true /\ is_digit minor = true.
Proof.
  unfold grammar_match. destruct (prefix "grammar" name); [|discriminate].
  destruct (drop 7 name) as [|a [|b rest]]; try discriminate.
  destruct (is_digit a) eqn:Ea; [|discriminate].
  destruct (is_digit b) eqn:Eb; [|discriminate].
  destruct (prefix ".txt" rest); [|discriminate].
  intros H. injection H as <- <-. auto.
Qed.

Lemma is_digit_In (c : ascii) : is_digit c = true -> In c digits.
Proof.
  unfold is_digit. intros H. apply andb_true_iff in H as [Hlo Hhi].
  apply Nat.leb_le in Hlo, Hhi. rewrite <- (ascii_nat_embedding c).
  unfold digits. apply in_map, in_seq. lia.
Qed.

(** For one digit on each side of the dot, the order of the strings is
    the order of the numbers. *)
Lemma version_order (a b c d : ascii) :
  is_digit a = true -> is_digit b = true ->
  is_digit c = true -> is_digit d = true ->
  String.leb (chr a ++ "." ++ chr b) (chr c ++ "." ++ chr d)
  = (version_number a b <=? version_number c d)%nat.
Proof.
  intros Ha Hb Hc Hd.
  assert (Htable :
            forallb (fun a => forallb (fun b => forallb (fun c => forallb (fun d =>
              Bool.eqb (String.leb (chr a ++ "." ++ chr b) (chr c ++ "." ++ chr d))
                       (version_number a b <=? version_number c d)%nat)
              digits) digits) digits) digits = true) by (vm_compute; reflexivity).
  rewrite forallb_forall in Htable.
  specialize (Htable a (is_digit_In a Ha)). rewrite forallb_forall in Htable.
  specialize (Htable b (is_digit_In b Hb)). rewrite forallb_forall in Htable.
  specialize (Htable c (is_digit_In c Hc)). rewrite forallb_forall in Htable.
  specialize (Htable d (is_digit_In d Hd)).
  now apply Bool.eqb_prop in Htable.
Qed.

Lemma compare_not_Gt_trans (a : string) :
  forall b c,
    String.compare a b <> Gt -> String.compare b c <> Gt ->
    String.compare a c <> Gt.
Proof.
  induction a as [|x a IH]; intros [|y b] [|z c]; cbn; try congruence.
  unfold Ascii.compare.
  destruct (N.compare_spec (N_of_ascii x) (N_of_ascii y)) as [Hxy|Hxy|Hxy];
    destruct (N.compare_spec (N_of_ascii y) (N_of_ascii z)) as [Hyz|Hyz|Hyz];
    try congruence;
    destruct (N.compare_spec (N_of_ascii x) (N_of_ascii z)) as [Hxz|Hxz|Hxz];
    try congruence; try lia.
  apply IH.
Qed.

Lemma leb_trans (a b c : string) :
  String.leb a b = true -> String.leb b c = true -> String.leb a c = true.
Proof.
  unfold String.leb. intros Hab Hbc.
  pose proof (compare_not_Gt_trans a b c) as H.
  destruct (String.compare a b); destruct (String.compare b c);
    destruct (String.compare a c); try discriminate; try reflexivity;
    exfalso; apply H; congruence.
Qed.

Lemma Sorted_leb_last (l : list string) :
  Sorted (fun v w => String.leb v w = true) l ->
  forall v, In v l -> String.leb v (last l "") = true.
Proof.
  induction 1 as [|x l Hl IH Hhd]; [intros v []|].
  intros v [<-|Hin].
  - destruct Hhd as [|y l Hxy]; [apply leb_refl|].
    apply leb_trans with y; [exact Hxy|].
    change (last (x :: y :: l) "") with (last (y :: l) "").
    apply IH. now left.
  - destruct l as [|y l]; [destruct Hin|].
    change (last (x :: y :: l) "") with (last (y :: l) "").
    now apply IH.
Qed.

(** X13. When the macro [WALRUS_VERSION] is computed without error, every
    grammar file name matched the pattern; the list holds exactly the
    versions [major.minor] of the names whose number is 3.8 or more; it is
    sorted, and its last element, the default version of [parse], has the
    highest number of them all. *)
Theorem WALRUS_VERSION_ends_with_the_highest_version :
  forall names versions,
    WALRUS_VERSION_of names = Ok versions ->
    (forall name, In name names -> grammar_match name <> None) /\
    (forall v,
        In v versions <->
        exists name major minor,
          In name names /\
          grammar_match name = Some (major, minor) /\
          v = chr major ++ "." ++ chr minor /\
          38 <= version_number major minor) /\
    Sorted (fun v w => String.leb v w = true) versions /\
    (forall name major minor,
        In name names ->
        grammar_match name = Some (major, minor) ->
        38 <= version_number major minor ->
        exists top_major top_minor,
          last versions "" = chr top_major ++ "." ++ chr top_minor /\
          version_number major minor <= version_number top_major top_minor).
Proof.
  intros names versions H. unfold WALRUS_VERSION_of in H.
  destruct (map_result version_of names) as [all|] eqn:Eall; [|discriminate].
  cbn in H. injection H as <-. apply map_result_Forall2 in Eall.
  assert (Hthreshold : forall major minor,
             is_digit major = true -> is_digit minor = true ->
             String.leb "3.8" (chr major ++ "." ++ chr minor)
             = (38 <=? version_number major minor)%nat).
  { intros major minor Hma Hmi.
    exact (version_order "3" "8" major minor eq_refl eq_refl Hma Hmi). }
  assert (Hin : forall v,
             In v (sorted (fun v => v) (filter (fun v => String.leb "3.8" v) all)) <->
             exists name major minor,
               In name names /\
               grammar_match name = Some (major, minor) /\
               v = chr major ++ "." ++ chr minor /\
               38 <= version_number major minor).
  { intros v. split.
    - intros Hv. eapply Permutation_in in Hv; [|apply sorted_perm].
      apply filter_In in Hv as [Hv Hleb].
      destruct (Forall2_In_r _ _ _ _ Eall Hv) as (name & Hname & Hver).
      unfold version_of in Hver.
      destruct (grammar_match name) as [[major minor]|] eqn:Em; [|discriminate].
      injection Hver as <-. exists name, major, minor.
      destruct (grammar_match_digits _ _ _ Em) as [Hma Hmi].
      assert (Hnum : (38 <=? version_number major minor)%nat = true)
        by (rewrite <- (Hthreshold _ _ Hma Hmi); exact Hleb).
      apply Nat.leb_le in Hnum. auto.
    - intros (name & major & minor & Hname & Em & -> & Hnum).
      eapply Permutation_in; [symmetry; apply sorted_perm|].
      apply filter_In.
      destruct (grammar_match_digits _ _ _ Em) as [Hma Hmi]. split.
      + destruct (Forall2_In_l _ _ _ _ Eall Hname) as (y & Hy & Hver).
        unfold version_of in Hver. rewrite Em in Hver. now injection Hver as <-.
      + change (String.leb "3.8" (chr major ++ "." ++ chr minor) = true).
        rewrite (Hthreshold _ _ Hma Hmi). now apply Nat.leb_le. }
  pose proof (sorted_Sorted (fun v : string => v)
                (filter (fun v => String.leb "3.8" v) all)) as Hsorted.
  split; [|split; [exact Hin|split; [exact Hsorted|]]].
  - intros name Hname.
    destruct (Forall2_In_l _ _ _ _ Eall Hname) as (y & _ & Hver).
    unfold version_of in Hver. now destruct (grammar_match name).
  - intros name major minor Hname Em Hnum.
    set (versions := sorted _ _) in *.
    assert (Hv : In (chr major ++ "." ++ chr minor) versions).
    { apply Hin. now exists name, major, minor. }
    pose proof (Sorted_leb_last versions Hsorted _ Hv) as Hle.
    assert (Hlast : In (last versions "") versions).
    { destruct versions as [|x l]; [destruct Hv|].
      destruct (@exists_last _ (x :: l)) as (l' & z & Heq); [discriminate|].
      rewrite Heq, last_last. apply in_or_app. right. now left. }
    apply Hin in Hlast as (name' & M & m & _ & Em' & Hform & _).
    exists M, m. split; [exact Hform|].
    rewrite Hform in Hle.
    destruct (grammar_match_digits _ _ _ Em) as [Hma Hmi].
    destruct (grammar_match_digits _ _ _ Em') as [HM Hm].
    rewrite (version_order _ _ _ _ Hma Hmi HM Hm) in Hle.
    now apply Nat.leb_le in Hle.
Qed.

Lemma prefix_empty (s : string) : prefix "" s = true.
Proof. now destruct s. Qed.

Lemma take_drop (n : nat) (s : string) : take n s ++ drop n s = s.
Proof.
  revert s. induction n as [|n IH]; intros [|c s]; cbn; try reflexivity.
  now rewrite IH.
Qed.

(** The answer of [rfind_from] is the answer so far or the index of an
    occurrence. *)
Lemma rfind_from_spec (c : ascii) (s : string) :
  forall i found,
    (found <= i)%Z ->
    let j := rfind_from i c s found in
    (found <= j)%Z /\
    (j = found \/
     (i <= j)%Z /\ exists r, drop (Z.to_nat (j - i)) s = String c r).
Proof.
  induction s as [|d s IH]; intros i found Hle; cbn [rfind_from].
  - split; [lia | now left].
  - destruct (Ascii.eqb d c) eqn:E.
    + apply Ascii.eqb_eq in E. subst d.
      destruct (IH (i + 1)%Z i ltac:(lia)) as (Hge & [Heq | (Hlt & r & Hr)]).
      * split; [lia|]. right. split; [lia|]. rewrite Heq.
        replace (i - i)%Z with 0%Z by lia. now exists s.
      * split; [lia|]. right. split; [lia|]. exists r.
        replace (Z.to_nat (rfind_from (i + 1) c s i - i))
          with (S (Z.to_nat (rfind_from (i + 1) c s i - (i + 1)))) by lia.
        exact Hr.
    + destruct (IH (i + 1)%Z found ltac:(lia)) as (Hge & [Heq | (Hlt & r & Hr)]).
      * split; [lia | now left].
      * split; [lia|]. right. split; [lia|]. exists r.
        replace (Z.to_nat (rfind_from (i + 1) c s found - i))
          with (S (Z.to_nat (rfind_from (i + 1) c s found - (i + 1)))) by lia.
        exact Hr.
Qed.

Lemma rfind_spec (c : ascii) (s : string) :
  (-1 <= rfind c s)%Z /\
  (rfind c s = (-1)%Z \/
   (0 <= rfind c s)%Z /\ exists r, drop (Z.to_nat (rfind c s)) s = String c r).
Proof.
  unfold rfind.
  destruct (rfind_from_spec c s 0 (-1) ltac:(lia)) as (Hge & [Heq | (Hle & r & Hr)]).
  - split; [lia | now left].
  - split; [lia|]. right. split; [lia|]. exists r.
    now rewrite Z.sub_0_r in Hr.
Qed.

Lemma rfind_first (c : ascii) (s : string) : (0 <= rfind c (String c s))%Z.
Proof.
  unfold rfind. cbn [rfind_from]. rewrite Ascii.eqb_refl.
  change (0 + 1)%Z with 1%Z. apply (rfind_from_spec c s 1 0). lia.
Qed.

(** X14. [rename] splits the path into a stem and an extension that
    together are the path, the extension being empty or starting with a
    dot, puts [-] and a new id between them, and joins the result to the
    root with [os.path.join]: for an absolute path the root is dropped and
    the name lies next to the file itself. *)
Theorem rename_puts_the_id_before_the_extension :
  forall uuid4_str path root k,
    exists stem ext,
      splitext path = (stem, ext) /\
      stem ++ ext = path /\
      (ext = "" \/ exists r, ext = String "." r) /\
      rename uuid4_str path root k
      = Ok (join root (stem ++ "-" ++ uuid4_str k ++ ext), S k) /\
      (prefix "/" path = true ->
       rename uuid4_str path root k
       = Ok (stem ++ "-" ++ uuid4_str k ++ ext, S k)).
Proof.
  intros uuid4_str path root k.
  destruct (splitext path) as [stem ext] eqn:Esplit.
  exists stem, ext. unfold rename. rewrite Esplit.
  assert (Hsplit : stem ++ ext = path /\
                   (ext = "" \/ exists r, ext = String "." r) /\
                   (prefix "/" path = true -> prefix "/" stem = true)).
  { unfold splitext in Esplit.
    destruct (rfind "." path >? rfind "/" path)%Z eqn:Egt.
    - destruct (only_dots _ _).
      + injection Esplit as <- <-.
        rewrite append_empty_r. repeat split; auto.
      + injection Esplit as <- <-. apply Z.gtb_lt in Egt.
        destruct (rfind_spec "." path) as (_ & [Hnone | (Hpos & r & Hr)]);
          [destruct (rfind_spec "/" path); lia|].
        split; [apply take_drop|]. split; [right; now exists r|].
        intros Habs. destruct path as [|c path]; [discriminate|].
        cbn [prefix] in Habs.
        destruct (Ascii.ascii_dec "/" c) as [<-|]; [|discriminate].
        pose proof (rfind_first "/" path) as Hsep.
        destruct (Z.to_nat (rfind "." (String "/" path))) as [|n] eqn:En; [lia|].
        cbn [take prefix].
        destruct (Ascii.ascii_dec "/" "/"); [|congruence].
        apply prefix_empty.
    - injection Esplit as <- <-.
      rewrite append_empty_r. repeat split; auto. }
  destruct Hsplit as (Happ & Hext & Habs).
  repeat split; auto.
  intros Hpath. unfold join.
  assert (Hname : prefix "/" (stem ++ "-" ++ uuid4_str k ++ ext) = true).
  { specialize (Habs Hpath). destruct stem as [|c stem]; [discriminate|].
    cbn [prefix append] in *.
    destruct (Ascii.ascii_dec "/" c); [|discriminate].
    apply prefix_empty. }
  now rewrite Hname.
Qed.

(* ================================================================== *)
(** * Further properties: one occurrence, and [main] with [walrus] *)

Lemma _process_children_plain (uuid4_hex : nat -> string) (cs : list node)
    (self : Context) (k : nat) :
  plain_children cs = true ->
  _process_children uuid4_hex cs self k
  = Ok (emit self (flatten (map get_code cs)), k).
Proof.
  intros Hplain.
  rewrite <- (_process_PythonNode uuid4_hex "" cs), <- concat_empty_flatten.
  now apply (_process_plain uuid4_hex (PythonNode "" cs)).
Qed.

(** X15. In a [Context] for a node whose children are written out as they
    are except for one assignment expression [name := e] with nothing to
    convert in [e], one id is drawn, and the string is the text before the
    occurrence, the call of the helper, the text after it, one
    declaration of [name], and one helper whose expression is the source
    text of [e]. *)
Theorem single_occurrence_is_replaced_once :
  forall uuid4_hex os loaded root t pre tn name np nc op e post
         column tabsize linesep k,
    plain_children pre = true ->
    plain_children post = true ->
    plain e = true ->
    recognised linesep ->
    let occurrence := PythonNode "namedexpr_test" [Leaf tn name np nc; op; e] in
    let spec := {| name := name; expr := get_code e; uuid := uuid4_hex k |} in
    exists self,
      Context_init uuid4_hex os loaded root (PythonNode t (pre ++ occurrence :: post))
        column (Some tabsize) (Some linesep) k = Ok (self, S k) /\
      _vars self = [name] /\
      _func self = [spec] /\
      string_of self
      = flatten (map get_code pre)
        ++ wrapper_call name (uuid4_hex k)
        ++ flatten (map get_code post)
        ++ declaration (expandtabs_tab column) linesep name
        ++ wrapper_text self spec.
Proof.
  intros uuid4_hex os loaded root t pre tn var np nc op e post column tabsize linesep k
         Hpre Hpost He Hsep occurrence spec.
  assert (Hinner : Context_with (_process uuid4_hex) e column tabsize linesep (S k)
                   = Ok (set_buffer (emit (fresh column tabsize linesep) (get_code e))
                           (get_code e), S k)).
  { unfold Context_with, bind, lift. rewrite (_process_plain uuid4_hex e He).
    cbn. now rewrite append_empty_r. }
  assert (Hrun : _process uuid4_hex (PythonNode t (pre ++ occurrence :: post))
                   (fresh column tabsize linesep) k
                 = Ok (emit (record_spec
                               (emit (emit (fresh column tabsize linesep)
                                           (flatten (map get_code pre)))
                                     (wrapper_call var (uuid4_hex k)))
                               var spec)
                            (flatten (map get_code post)), S k)).
  { rewrite _process_PythonNode, _process_children_app.
    rewrite (_process_children_plain uuid4_hex pre _ k Hpre).
    cbn [_process_children]. unfold bind at 1.
    unfold handler, occurrence. cbn [type_of String.eqb Ascii.eqb Bool.eqb].
    unfold _process_namedexpr_test, _process_namedexpr_test_with.
    unfold bind at 1. unfold lift. cbn [value_of rbind]. unfold bind at 1.
    cbn [emit fresh _indent _tabsize _linesep _insert set_prefix].
    rewrite Hinner. unfold ret.
    now rewrite (_process_children_plain uuid4_hex post _ (S k) Hpost). }
  eexists. split; [|split; [|split]].
  - unfold Context_init, Context_with, bind, lift. cbn [rbind].
    rewrite Hrun. rewrite _concat_closed by (now apply recognised_percent_free).
    reflexivity.
  - reflexivity.
  - reflexivity.
  - unfold wrapper_text.
    cbn [string_of set_buffer set_prefix record_spec emit fresh
         _buffer _prefix _suffix _vars _func _column _linesep _tabsize _insert app].
    change (sorted_set [var]) with [var].
    change (sorted name [spec]) with [spec].
    cbn [map flatten fold_right append].
    now rewrite ?append_empty_r, ?append_assoc.
Qed.

(** X16. After the set-up of [main], [walrus] is silent when [--quiet] was
    given or [WALRUS_QUIET] was already set to one of the values that
    make it silent, and prints its line otherwise. *)
Theorem main_quiet_reaches_walrus :
  forall args os loaded uuid4_hex parso_parse WALRUS_VERSION filename w k,
    let os' := fst (main_environ args os) in
    stdout (fst (walrus uuid4_hex os' loaded parso_parse WALRUS_VERSION filename w k))
    = (if Args.quiet args
          || existsb (String.eqb (casefold (getenv os "WALRUS_QUIET" "0")))
                     quiet_values
       then stdout w
       else (stdout w
             ++ [("Now converting " ++ repr filename ++ "...")%string])%list).
Proof.
  intros args os loaded uuid4_hex parso_parse WALRUS_VERSION filename w k os'.
  assert (Henv : getenv os' "WALRUS_QUIET" "0"
                 = if Args.quiet args then "1" else getenv os "WALRUS_QUIET" "0").
  { subst os'. unfold main_environ, getenv.
    destruct (upper (Args.linesep args) =? "CR");
      [|destruct (upper (Args.linesep args) =? "CRLF");
        [|destruct (upper (Args.linesep args) =? "LF");
          [|destruct (existsb _ _)]]];
      cbn [fst setenv environ environ_get String.eqb Ascii.eqb Bool.eqb];
      destruct (Args.quiet args); try reflexivity;
      now destruct (environ_get (environ os) "WALRUS_QUIET"). }
  unfold walrus. rewrite states_get_quiet, Henv.
  destruct (Args.quiet args); cbn [orb].
  - change (existsb (String.eqb (casefold "1")) quiet_values) with true.
    cbn [negb].
    repeat match goal with
           | |- context [match ?x with _ => _ end] => destruct x
           end; reflexivity.
  - destruct (existsb _ quiet_values); cbn [negb];
      repeat match goal with
             | |- context [match ?x with _ => _ end] => destruct x
             end; reflexivity.
Qed.

(* ================================================================== *)
(** * The further properties at sample inputs *)



(** X3 at [(a := 1) + (a := 2)]. *)
Lemma suffix_witness :
  Context_init Sample.uuid4_hex Sample.posix Sample.posix Sample.twice_expr Sample.twice_expr
    0 (Some 4%Z) (Some LF) 0 = Ok (Sample.twice_context, 2) /\
  _insert Sample.twice_context = true /\
  _suffix Sample.twice_context = "".
Proof.
  assert (Hinit : Context_init Sample.uuid4_hex Sample.posix Sample.posix Sample.twice_expr
                    Sample.twice_expr 0 (Some 4%Z) (Some LF) 0
                  = Ok (Sample.twice_context, 2)) by (vm_compute; reflexivity).
  destruct (suffix_is_never_written _ _ _ _ _ _ _ _ _ _ _ Hinit)
    as (Hins & Hsuf & _).
  exact (conj Hinit (conj Hins Hsuf)).
Defined.

(** X4 at the [Context] of [(x := f())] after the traversal. *)
Lemma helpers_order_witness :
  recognised (_linesep Sample.single_traversed) /\
  exists self, _concat Sample.single_traversed = Ok self.
Proof.
  assert (Hsep : recognised (_linesep Sample.single_traversed))
    by (right; right; left; reflexivity).
  split; [exact Hsep|].
  destruct (helpers_follow_the_order_of_names Sample.single_traversed Hsep)
    as (order & _ & _ & _ & Hconcat).
  eexists. exact Hconcat.
Defined.

(** X5 at a module that holds its end marker only, and at one whose only
    statement comes before a function. *)
Lemma guess_tabsize_first_child_witness :
  forallb stepped_over [Cases.endmarker] = true /\
  guess_tabsize Sample.posix Sample.posix (Module [Cases.endmarker]) = Ok 4%Z /\
  guess_tabsize Sample.posix Sample.posix
    (Module ([Cases.endmarker] ++ Cases.bare_occurrence :: [Cases.function]))
  = guess_tabsize Sample.posix Sample.posix Cases.bare_occurrence.
Proof.
  destruct (guess_tabsize_follows_the_first_interior_child
              Sample.posix Sample.posix [Cases.endmarker] eq_refl)
    as (Hnone & _ & Hfirst).
  split; [reflexivity|]. split.
  - rewrite Hnone. reflexivity.
  - exact (proj1 (Hfirst Cases.bare_occurrence [Cases.function] eq_refl)).
Defined.

(** X6 at a module with a block at column 8 and at the module of two
    lines, without the variable; and, beside it, an empty module when the
    variable held [-3] as the module was loaded and is gone at the call. *)
Lemma guess_tabsize_bound_witness :
  guess_tabsize Sample.posix Sample.posix Cases.block = Ok 8%Z /\
  ((0 <= 8)%Z /\
   (exists suite, In suite (subtrees Cases.block) /\ block_column suite 8)
   \/ int (getenv Sample.posix "WALRUS_TABSIZE" (__walrus_tabsize__ Sample.posix))
      = Ok 8%Z) /\
  guess_tabsize Sample.posix Sample.posix (Module Sample.crlf_tree) = Ok 4%Z /\
  (0 <= 4)%Z /\
  guess_tabsize Sample.posix
    {| environ := [("WALRUS_TABSIZE", "-3")]; linesep := LF |} (Module [])
  = Ok (-3)%Z.
Proof.
  refine (conj eq_refl (conj _ (conj eq_refl (conj _ eq_refl)))).
  - exact (proj1 (guess_tabsize_is_a_column_or_the_configured_value
                    Sample.posix Sample.posix Cases.block 8 eq_refl)).
  - exact (proj2 (guess_tabsize_is_a_column_or_the_configured_value
                    Sample.posix Sample.posix (Module Sample.crlf_tree) 4 eq_refl)
                 eq_refl eq_refl).
Defined.

(** X7 at an empty module on a POSIX system. *)
Lemma guess_linesep_witness :
  guess_linesep Sample.posix (Module []) = Ok LF /\
  recognised LF /\
  guess_linesep Sample.posix (Module Sample.crlf_tree) = Ok LF.
Proof.
  destruct (guess_linesep_answers_with_the_configured_separator
              Sample.posix (Module []) LF eq_refl) as (Hrec & Hany & _).
  exact (conj eq_refl (conj Hrec (Hany (Module Sample.crlf_tree)))).
Defined.

(** X9 at [--tabsize 8]. *)
Lemma main_tabsize_witness :
  forallb stepped_over [Cases.endmarker] = true /\
  guess_tabsize (fst (main_environ Cases.args Sample.posix)) Sample.posix
    (Module [Cases.endmarker]) = Ok 8%Z.
Proof.
  split; [reflexivity|].
  exact (main_tabsize_is_read_back Cases.args Sample.posix Sample.posix
           [Cases.endmarker] eq_refl).
Defined.

(** X13 at four grammar files. *)
Lemma WALRUS_VERSION_witness :
  WALRUS_VERSION_of Cases.grammars = Ok ["3.8"; "3.9"] /\
  Sorted (fun v w => String.leb v w = true) ["3.8"; "3.9"].
Proof.
  split; [reflexivity|].
  exact (proj1 (proj2 (proj2 (WALRUS_VERSION_ends_with_the_highest_version
                                Cases.grammars ["3.8"; "3.9"] eq_refl)))).
Defined.

(** X15 at [(x := f())] in a [Context] at column 8. *)
Lemma single_occurrence_witness :
  plain_children [Sample.op_ "(" "" 0] = true /\
  plain_children [Sample.op_ ")" "" 9] = true /\
  plain (PythonNode "atom_expr"
           [Sample.name_ "f" " " 6;
            PythonNode "trailer" [Sample.op_ "(" "" 7; Sample.op_ ")" "" 8]])
  = true /\
  recognised LF /\
  exists self,
    Context_init Sample.uuid4_hex Sample.posix Sample.posix Sample.single_atom
      Sample.single_atom 8 (Some 4%Z) (Some LF) 0 = Ok (self, 1) /\
    _vars self = ["x"].
Proof.
  assert (Hsep : recognised LF) by (right; right; left; reflexivity).
  refine (conj eq_refl (conj eq_refl (conj eq_refl (conj Hsep _)))).
  destruct (single_occurrence_is_replaced_once
              Sample.uuid4_hex Sample.posix Sample.posix Sample.single_atom "atom"
              [Sample.op_ "(" "" 0] "name" "x" "" 1 (Sample.op_ ":=" " " 3)
              (PythonNode "atom_expr"
                 [Sample.name_ "f" " " 6;
                  PythonNode "trailer" [Sample.op_ "(" "" 7; Sample.op_ ")" "" 8]])
              [Sample.op_ ")" "" 9] 8 4 LF 0 eq_refl eq_refl eq_refl Hsep)
    as (self & Hinit & Hvars & _).
  exists self. split; [exact Hinit | exact Hvars].
Defined.
